(** * Wallet initialisation (src/wallet/init.cpp)

    A shallow embedding of the wallet start-up and shut-down sequence:
    [ParameterInteraction], [VerifyWallets], [Construct], [LoadWallets],
    [StartWallets], [FlushWallets], [StopWallets] and [UnloadWallets].

    The C++ code works on process-wide state (the option store [gArgs], the
    file system, the wallet registry [vpwallets], the user interface).  Here
    that state is one record, [World], threaded through a small state and
    exception monad; everything the code prints, reports or asks of the
    wallet capability is appended to an event trace, so that ordering
    properties can be stated. *)

From Stdlib Require Import ZArith Ascii String.
From stdpp Require Import base strings list gmap.

Local Open Scope string_scope.
Local Open Scope Z_scope.
Local Open Scope list_scope.

(** ** Number parsing

    The C library calls behind the numeric reads of the option store:
    [strtoll] as the standard has it, [atoi] as [(int) strtol]. *)

Module Parse.

Definition is_space (c : ascii) : bool :=
  let n := Z.of_nat (nat_of_ascii c) in
  (n =? 32) || ((9 <=? n) && (n <=? 13)).

Definition digit_of (c : ascii) : option Z :=
  let n := Z.of_nat (nat_of_ascii c) in
  if (48 <=? n) && (n <=? 57) then Some (n - 48) else None.

Fixpoint skip_spaces (s : string) : string :=
  match s with
  | String c s' => if is_space c then skip_spaces s' else s
  | EmptyString => s
  end.

Fixpoint digits (acc : Z) (s : string) : Z :=
  match s with
  | String c s' =>
      match digit_of c with
      | Some d => digits (10 * acc + d) s'
      | None => acc
      end
  | EmptyString => acc
  end.

(** The mathematical value of the longest decimal prefix, sign included. *)
Definition decimal (s : string) : Z :=
  match skip_spaces s with
  | String "-" r => - digits 0 r
  | String "+" r => digits 0 r
  | r => digits 0 r
  end.

(** [strtoll]: out-of-range values saturate at the 64-bit bounds. *)
Definition strtoll (s : string) : Z :=
  Z.max (- 2 ^ 63) (Z.min (2 ^ 63 - 1) (decimal s)).

Definition atoi64 (s : string) : Z := strtoll s.

(** [atoi] is [(int) strtol(s, NULL, 10)]: the 64-bit result is cut down
    to 32 bits, two's complement. *)
Definition wrap32 (z : Z) : Z := (z + 2 ^ 31) mod 2 ^ 32 - 2 ^ 31.

Definition atoi (s : string) : Z := wrap32 (strtoll s).

End Parse.

(** ** The option store *)

Module Args.

Abbreviation t := (gmap string (list string)).

(** Modelled from the spec: a boolean option value as text (util/system.cpp
    is not among the sources at hand).  An option given without a value is
    on; otherwise the value is read as a number and is on unless zero. *)
Definition InterpretBool (strValue : string) : bool :=
  match strValue with
  | EmptyString => true
  | _ => negb (Parse.atoi strValue =? 0)
  end.

(** Modelled from the spec: the configuration store [gArgs] (class
    ArgsManager, declared in util/system.h, which is not among the sources
    at hand).  Section 6 of the specification gives its interface: get and
    set of boolean, string and list valued options by name, where soft-set
    means set only if unset.  The specification does not say how a store
    holds an option; here a name is bound to the list of the values given
    for it, and the last one wins for scalar reads.  A name bound to no
    value is the option given in negated form ([-nofoo]), as ArgsManager
    keeps it: it counts as set, reads as false, zero or "0", and lists no
    values. *)
Definition IsArgNegated (a : t) (strArg : string) : bool :=
  bool_decide (a !! strArg = Some []).

(** Modelled from the spec: the value a scalar read sees, the last given. *)
Definition Find (a : t) (strArg : string) : option string :=
  a !! strArg ≫= last.

(** Modelled from the spec: an option is set when it has a value or was
    negated. *)
Definition IsArgSet (a : t) (strArg : string) : bool :=
  IsArgNegated a strArg || bool_decide (is_Some (Find a strArg)).

(** Modelled from the spec: get of a list valued option. *)
Definition GetArgs (a : t) (strArg : string) : list string :=
  if IsArgNegated a strArg then [] else default [] (a !! strArg).

(** Modelled from the spec: get of a string valued option. *)
Definition GetArg (a : t) (strArg strDefault : string) : string :=
  if IsArgNegated a strArg then "0" else default strDefault (Find a strArg).

(** Modelled from the spec: get of a number valued option. *)
Definition GetIntArg (a : t) (strArg : string) (nDefault : Z) : Z :=
  if IsArgNegated a strArg then 0
  else from_option Parse.atoi64 nDefault (Find a strArg).

(** Modelled from the spec: get of a boolean option. *)
Definition GetBoolArg (a : t) (strArg : string) (fDefault : bool) : bool :=
  if IsArgNegated a strArg then false
  else from_option InterpretBool fDefault (Find a strArg).

(** Modelled from the spec: set, whatever the option held. *)
Definition ForceSetArg (a : t) (strArg strValue : string) : t :=
  <[strArg := [strValue]]> a.

(** Modelled from the spec: soft-set, that is set only if unset; the result
    tells whether the option was set by this call. *)
Definition SoftSetArg (a : t) (strArg strValue : string) : bool * t :=
  if IsArgSet a strArg then (false, a)
  else (true, ForceSetArg a strArg strValue).

(** Modelled from the spec: soft-set of a boolean option, kept as 1 or 0. *)
Definition SoftSetBoolArg (a : t) (strArg : string) (fValue : bool)
  : bool * t :=
  SoftSetArg a strArg (if fValue then "1" else "0").

End Args.

(** ** The file system

    The file system is outside the repository (boost::filesystem).  Section
    6 of the specification lists what is used of it: existence check,
    is-directory check, canonicalize (kept abstract, see [Externals]) and
    copy-file-failing-if-destination-exists.  A disk is a finite map from
    paths to what is there. *)

Module Fs.

Inductive node :=
| RegularFile (content : string)
| Directory.

Abbreviation t := (gmap string node).

(** [fs::exists(p)] *)
Definition exists_ (d : t) (p : string) : bool :=
  bool_decide (is_Some (d !! p)).

(** [fs::is_directory(p)] *)
Definition is_directory (d : t) (p : string) : bool :=
  match d !! p with
  | Some Directory => true
  | _ => false
  end.

(** [p.is_absolute()], POSIX: the path starts at the root. *)
Definition is_absolute (p : string) : bool :=
  match p with
  | String "/" _ => true
  | _ => false
  end.

Fixpoint ends_with_slash (p : string) : bool :=
  match p with
  | EmptyString => false
  | String c EmptyString => bool_decide (c = "/"%char)
  | String _ r => ends_with_slash r
  end.

(** [p / q] *)
Definition join (p q : string) : string :=
  match p with
  | EmptyString => q
  | _ => if ends_with_slash p then p +:+ q else p +:+ "/" +:+ q
  end.

(** A path as a stream prints it, and so as [%s] formats it: in double
    quotes, with [&] before every double quote and every [&] in it. *)
Fixpoint quoted_body (p : string) : string :=
  match p with
  | EmptyString => String (ascii_of_nat 34) EmptyString
  | String c r =>
      if bool_decide (c = ascii_of_nat 34) || bool_decide (c = "&"%char)
      then String "&" (String c (quoted_body r))
      else String c (quoted_body r)
  end.

Definition quoted (p : string) : string :=
  String (ascii_of_nat 34) (quoted_body p).

(** [copy_file(from, to, copy_option::fail_if_exists)]: [None] when the
    call throws because there is no regular file to copy or because the
    destination exists.  The other ways the call can throw (no permission,
    an I/O error) do not show in a disk of this kind; they are an answer of
    the outside, [copy_file_error] of [Externals]. *)
Definition copy_file_fail_if_exists (d : t) (from to : string)
  : option t :=
  match d !! from with
  | Some (RegularFile c) =>
      if exists_ d to then None else Some (<[to := RegularFile c]> d)
  | _ => None
  end.

End Fs.

(** ** Process state, events and the monad *)

(** A wallet handle ([std::shared_ptr<CWallet>]) is known by its identity. *)
Definition Handle := nat.

(** What the code lets the outside observe, in the order it happens.  Calls
    on the registry are recorded too, so that the order of registry updates
    relative to calls into the wallet capability can be stated. *)
Inductive Event :=
| EvLogPrintf (line : string)
| EvInitError (msg : string)
| EvInitWarning (msg : string)
| EvInitMessage (msg : string)
| EvVerify (location : string) (salvage_wallet : bool)
| EvCreateWalletFromFile (location : string)
| EvAddWallet (wallet : Handle)
| EvRemoveWallet (wallet : Handle)
| EvUnloadWallet (wallet : Handle)
| EvPostInitProcess (wallet : Handle)
| EvFlush (wallet : Handle) (shutdown : bool)
| EvScheduleEvery (task : string) (delta_ms : Z)
| EvCopyFile (from to : string).

Record World := mkWorld {
  gArgs : gmap string (list string);
  disk : gmap string Fs.node;
  vpwallets : list Handle;          (* the wallet registry *)
  released : list Handle;           (* handles given to UnloadWallet *)
  chain_clients : list (list string); (* wallet clients, by their file list *)
  trace : list Event
}.

Definition set_gArgs (a : gmap string (list string)) (w : World) : World :=
  mkWorld a (disk w) (vpwallets w) (released w) (chain_clients w) (trace w).

Definition set_disk (d : gmap string Fs.node) (w : World) : World :=
  mkWorld (gArgs w) d (vpwallets w) (released w) (chain_clients w) (trace w).

Definition set_vpwallets (l : list Handle) (w : World) : World :=
  mkWorld (gArgs w) (disk w) l (released w) (chain_clients w) (trace w).

Definition set_released (l : list Handle) (w : World) : World :=
  mkWorld (gArgs w) (disk w) (vpwallets w) l (chain_clients w) (trace w).

Definition set_chain_clients (l : list (list string)) (w : World) : World :=
  mkWorld (gArgs w) (disk w) (vpwallets w) (released w) l (trace w).

Definition set_trace (l : list Event) (w : World) : World :=
  mkWorld (gArgs w) (disk w) (vpwallets w) (released w) (chain_clients w) l.

(** A call either returns a value or throws; the world goes on either way. *)
Inductive Outcome (A : Type) :=
| Ret (a : A)
| Throw.
Arguments Ret {A} a.
Arguments Throw {A}.

Definition M (A : Type) : Type := World → Outcome A * World.

Definition ret {A : Type} (a : A) : M A := λ w, (Ret a, w).

Definition bind {A B : Type} (m : M A) (f : A → M B) : M B :=
  λ w, match m w with
       | (Ret a, w') => f a w'
       | (Throw, w') => (Throw, w')
       end.

Notation "'let!' x ':=' c 'in' k" := (bind c (λ x, k))
  (at level 10, x pattern, c at level 100, k at level 200,
   format "'[v' 'let!'  x  ':='  c  'in' '/' k ']'").

Notation "c 'then!' k" := (bind c (λ _, k))
  (at level 100, k at level 200, right associativity,
   format "'[v' c  'then!' '/' k ']'").

(** [a && b] with a call on both sides: [b] runs only when [a] is true. *)
Definition mand (a b : M bool) : M bool :=
  let! x := a in if x then b else ret false.

Definition mwhen (c : M bool) (body : M unit) : M unit :=
  let! x := c in if x then body else ret tt.

Fixpoint for_each {A : Type} (l : list A) (body : A → M unit) : M unit :=
  match l with
  | [] => ret tt
  | x :: l' => body x then! for_each l' body
  end.

Definition emit (e : Event) : M unit :=
  λ w, (Ret tt, set_trace (trace w ++ [e]) w).

Definition LogPrintf (line : string) : M unit := emit (EvLogPrintf line).

(** Modelled from the spec: [InitError] (declared in init.h, not among the
    sources at hand) hands the user a fatal message and returns false,
    which the callers return in turn (section 7: a boolean failure plus a
    user-visible message). *)
Definition InitError (msg : string) : M bool :=
  emit (EvInitError msg) then! ret false.

(** Modelled from the spec: [InitWarning] hands the user an advisory
    message (section 3: warnings are advisory, start-up continues). *)
Definition InitWarning (msg : string) : M unit := emit (EvInitWarning msg).

(** [uiInterface.InitMessage] *)
Definition InitMessage (msg : string) : M unit := emit (EvInitMessage msg).

Definition nl : string := String (ascii_of_nat 10) EmptyString.

Definition quote : string := String (ascii_of_nat 34) EmptyString.

(** The option store, as calls on the world. *)
Definition GetBoolArg (strArg : string) (fDefault : bool) : M bool :=
  λ w, (Ret (Args.GetBoolArg (gArgs w) strArg fDefault), w).

Definition GetIntArg (strArg : string) (nDefault : Z) : M Z :=
  λ w, (Ret (Args.GetIntArg (gArgs w) strArg nDefault), w).

Definition GetArg (strArg strDefault : string) : M string :=
  λ w, (Ret (Args.GetArg (gArgs w) strArg strDefault), w).

Definition GetArgs (strArg : string) : M (list string) :=
  λ w, (Ret (Args.GetArgs (gArgs w) strArg), w).

Definition IsArgSet (strArg : string) : M bool :=
  λ w, (Ret (Args.IsArgSet (gArgs w) strArg), w).

Definition SoftSetArg (strArg strValue : string) : M bool :=
  λ w, let '(b, a) := Args.SoftSetArg (gArgs w) strArg strValue in
       (Ret b, set_gArgs a w).

Definition SoftSetBoolArg (strArg : string) (fValue : bool) : M bool :=
  λ w, let '(b, a) := Args.SoftSetBoolArg (gArgs w) strArg fValue in
       (Ret b, set_gArgs a w).

Definition ForceSetArg (strArg strValue : string) : M unit :=
  λ w, (Ret tt, set_gArgs (Args.ForceSetArg (gArgs w) strArg strValue) w).

(** ** The wallet registry

    [AddWallet], [RemoveWallet], [GetWallets] and [UnloadWallet] are in
    wallet/wallet.cpp, which is not among the sources at hand. *)

Fixpoint erase_first (h : Handle) (l : list Handle) : list Handle :=
  match l with
  | [] => []
  | x :: l' => if decide (x = h) then l' else x :: erase_first h l'
  end.

Definition registry_add (h : Handle) (l : list Handle) : list Handle :=
  if decide (h ∈ l) then l else l ++ [h].

(** Modelled from the spec: [AddWallet].  Section 3: the registry is an
    insertion-ordered set of handles keyed by identity, never holding a
    handle twice; a handle is added at the end unless it is there. *)
Definition AddWallet (wallet : Handle) : M bool :=
  emit (EvAddWallet wallet) then!
  λ w, (Ret (bool_decide (wallet ∉ vpwallets w)),
        set_vpwallets (registry_add wallet (vpwallets w)) w).

(** Modelled from the spec: [RemoveWallet] takes the handle out of the
    registry (section 2: the registry supports add, remove, lookup). *)
Definition RemoveWallet (wallet : Handle) : M bool :=
  emit (EvRemoveWallet wallet) then!
  λ w, (Ret (bool_decide (wallet ∈ vpwallets w)),
        set_vpwallets (erase_first wallet (vpwallets w)) w).

(** Modelled from the spec: [GetWallets] hands out a copy of the registry
    (section 5: readers observe a consistent snapshot). *)
Definition GetWallets : M (list Handle) := λ w, (Ret (vpwallets w), w).

(** Modelled from the spec: [UnloadWallet] releases the handle it is given
    (section 6, [Unload(handle)]). *)
Definition UnloadWallet (wallet : Handle) : M unit :=
  emit (EvUnloadWallet wallet) then!
  λ w, (Ret tt, set_released (released w ++ [wallet]) w).

(** ** What the code takes from the rest of the node

    Constants, globals and functions declared in headers that are not among
    the sources at hand; they are parameters of the development.  The wallet
    capability reads the disk; its answers are functions of the disk and of
    the location asked about. *)

Record Externals := {
  DEFAULT_DISABLE_WALLET : bool;
  DEFAULT_BLOCKSONLY : bool;
  HIGH_TX_FEE_PER_KB : Z;
  (* ::minRelayTxFee.GetFeePerK() *)
  minRelayTxFee_GetFeePerK : Z;
  AmountHighWarn : string → string;
  GetDataDir : gmap string (list string) → string;
  GetDefaultDataDirLegacy : string;
  GetWalletDir : gmap string (list string) → gmap string Fs.node → string;
  (* WalletLocation(name).GetPath() *)
  WalletLocation_GetPath :
    gmap string (list string) → gmap string Fs.node → string → string;
  (* fs::canonical(p, error): None when error is set *)
  fs_canonical : gmap string Fs.node → string → option string;
  (* The disk is shared with other processes: the disk as fs::copy_file
     finds it, given the disk as the checks before the call saw it. *)
  other_processes : gmap string Fs.node → gmap string Fs.node;
  (* fs::copy_file(from, to) throws for a reason the disk does not show *)
  copy_file_error : gmap string Fs.node → string → string → bool;
  (* CWallet::Verify: success flag, error string, warning string *)
  CWallet_Verify :
    gmap string Fs.node → string → bool → bool * string * string;
  (* CWallet::CreateWalletFromFile: None is the null pointer *)
  CWallet_CreateWalletFromFile :
    gmap string Fs.node → string → option Handle
}.

Section Program.

Context (E : Externals).

Definition WalletLocation (name : string) : M string :=
  λ w, (Ret (WalletLocation_GetPath E (gArgs w) (disk w) name), w).

(** [WalletLocation::Exists] *)
Definition Exists (location : string) : M bool :=
  λ w, (Ret (Fs.exists_ (disk w) location), w).

Definition Verify (location : string) (salvage_wallet : bool)
  : M (bool * string * string) :=
  emit (EvVerify location salvage_wallet) then!
  λ w, (Ret (CWallet_Verify E (disk w) location salvage_wallet), w).

Definition CreateWalletFromFile (location : string) : M (option Handle) :=
  emit (EvCreateWalletFromFile location) then!
  λ w, (Ret (CWallet_CreateWalletFromFile E (disk w) location), w).

(** [fs::copy_file(from, to, fs::copy_option::fail_if_exists)], on the disk
    as it is when the call is made. *)
Definition copy_file (from to : string) : M unit :=
  emit (EvCopyFile from to) then!
  λ w, let d := other_processes E (disk w) in
       if copy_file_error E d from to then (Throw, set_disk d w)
       else match Fs.copy_file_fail_if_exists d from to with
            | Some d' => (Ret tt, set_disk d' w)
            | None => (Throw, set_disk d w)
            end.

(** *** ParameterInteraction (lines 75-133)

    The function returns from the middle in several places; each definition
    below is the function from one block of it to its end. *)

Definition single_wallet_only (opt : string) : string :=
  opt +:+ " is only allowed with a single wallet file".

Definition sysperms_error : string :=
  "-sysperms is not allowed in combination with enabled wallet functionality".

Definition pruned_rescan_error : string :=
  "Rescans are not possible in pruned mode. You will need to use -reindex which will download the whole blockchain again.".

(** Lines 123-132. *)
Definition ParameterInteraction_sysperms : M bool :=
  let! sysperms := GetBoolArg "-sysperms" false in
  if sysperms then
    InitError sysperms_error
  else
    let! prune_rescan :=
      mand (let! prune := GetIntArg "-prune" 0 in ret (negb (prune =? 0)))
           (GetBoolArg "-rescan" false) in
    if prune_rescan then
      InitError pruned_rescan_error
    else
      (if HIGH_TX_FEE_PER_KB E <? minRelayTxFee_GetFeePerK E then
         InitWarning
           (AmountHighWarn E "-minrelaytxfee" +:+ " " +:+
            "The wallet will avoid paying less than the minimum relay fee.")
       else ret tt) then!
      ret true.

(** Lines 117-121, then the rest. *)
Definition ParameterInteraction_upgrade (is_multiwallet : bool) : M bool :=
  if is_multiwallet then
    let! upgradewallet := GetBoolArg "-upgradewallet" false in
    if upgradewallet then InitError (single_wallet_only "-upgradewallet")
    else ParameterInteraction_sysperms
  else ParameterInteraction_sysperms.

(** Lines 101-115, then the rest. *)
Definition ParameterInteraction_zap (is_multiwallet : bool) : M bool :=
  let! zapwallettxes := GetBoolArg "-zapwallettxes" false in
  mwhen (mand (ret zapwallettxes) (SoftSetBoolArg "-persistmempool" false))
    (LogPrintf
       ("ParameterInteraction: parameter interaction: -zapwallettxes enabled -> setting -persistmempool=0" +:+ nl))
  then!
  if zapwallettxes then
    if is_multiwallet then InitError (single_wallet_only "-zapwallettxes")
    else
      mwhen (SoftSetBoolArg "-rescan" true)
        (LogPrintf
           ("ParameterInteraction: parameter interaction: -zapwallettxes enabled -> setting -rescan=1" +:+ nl))
      then!
      ParameterInteraction_upgrade is_multiwallet
  else ParameterInteraction_upgrade is_multiwallet.

(** Lines 91-99, then the rest. *)
Definition ParameterInteraction_salvage (is_multiwallet : bool) : M bool :=
  let! salvagewallet := GetBoolArg "-salvagewallet" false in
  if salvagewallet then
    if is_multiwallet then InitError (single_wallet_only "-salvagewallet")
    else
      mwhen (SoftSetBoolArg "-rescan" true)
        (LogPrintf
           ("ParameterInteraction: parameter interaction: -salvagewallet=1 -> setting -rescan=1" +:+ nl))
      then!
      ParameterInteraction_zap is_multiwallet
  else ParameterInteraction_zap is_multiwallet.

Definition ParameterInteraction : M bool :=
  let! disablewallet :=
    GetBoolArg "-disablewallet" (DEFAULT_DISABLE_WALLET E) in
  if disablewallet then
    let! wallets := GetArgs "-wallet" in
    for_each wallets (λ wallet,
      LogPrintf
        ("ParameterInteraction: parameter interaction: -disablewallet -> ignoring -wallet="
           +:+ wallet +:+ nl))
    then!
    ret true
  else
    let! wallets := GetArgs "-wallet" in
    let is_multiwallet := bool_decide (1 < length wallets)%nat in
    mwhen (mand (GetBoolArg "-blocksonly" (DEFAULT_BLOCKSONLY E))
                (SoftSetBoolArg "-walletbroadcast" false))
      (LogPrintf
         ("ParameterInteraction: parameter interaction: -blocksonly=1 -> setting -walletbroadcast=0" +:+ nl))
    then!
    ParameterInteraction_salvage is_multiwallet.

(** *** VerifyWallets (lines 135-181) *)

Definition duplicate_wallet_error (wallet_file : string) : string :=
  "Error loading wallet " +:+ wallet_file +:+
  ". Duplicate -wallet filename specified.".

(** The loop of lines 165-178; [wallet_paths] is the set of locations seen. *)
Fixpoint VerifyWallets_loop (salvage_wallet : bool)
    (wallet_paths : gset string) (wallet_files : list string) : M bool :=
  match wallet_files with
  | [] => ret true
  | wallet_file :: rest =>
      let! location := WalletLocation wallet_file in
      if decide (location ∈ wallet_paths) then
        InitError (duplicate_wallet_error wallet_file)
      else
        let! (verify_success, error_string, warning_string) :=
          Verify location salvage_wallet in
        (if decide (error_string = "") then ret false
         else InitError error_string) then!
        (if decide (warning_string = "") then ret tt
         else InitWarning warning_string) then!
        if verify_success then
          VerifyWallets_loop salvage_wallet ({[location]} ∪ wallet_paths) rest
        else ret false
  end.

(** Lines 153-180: what follows the checks on the wallet directory. *)
Definition VerifyWallets_files (wallet_files : list string) : M bool :=
  (λ w, LogPrintf ("Using wallet directory " +:+
                   GetWalletDir E (gArgs w) (disk w) +:+ nl) w) then!
  InitMessage "Verifying wallet(s)..." then!
  let! salvagewallet := GetBoolArg "-salvagewallet" false in
  let salvage_wallet :=
    salvagewallet && bool_decide (length wallet_files ≤ 1)%nat in
  VerifyWallets_loop salvage_wallet ∅ wallet_files.

Definition walletdir_does_not_exist (wallet_dir : string) : string :=
  "Specified -walletdir " +:+ quote +:+ wallet_dir +:+ quote +:+
  " does not exist".

Definition walletdir_is_not_a_directory (wallet_dir : string) : string :=
  "Specified -walletdir " +:+ quote +:+ wallet_dir +:+ quote +:+
  " is not a directory".

Definition walletdir_is_a_relative_path (wallet_dir : string) : string :=
  "Specified -walletdir " +:+ quote +:+ wallet_dir +:+ quote +:+
  " is a relative path".

Definition VerifyWallets (wallet_files : list string) : M bool :=
  let! walletdir_set := IsArgSet "-walletdir" in
  if walletdir_set then
    let! wallet_dir := GetArg "-walletdir" "" in
    let! canonical_wallet_dir :=
      (λ w, (Ret (fs_canonical E (disk w) wallet_dir), w)) in
    let! wallet_dir_exists := Exists wallet_dir in
    let! wallet_dir_is_directory :=
      (λ w, (Ret (Fs.is_directory (disk w) wallet_dir), w)) in
    match canonical_wallet_dir with
    | None => InitError (walletdir_does_not_exist wallet_dir)
    | Some canonical =>
        if negb wallet_dir_exists then
          InitError (walletdir_does_not_exist wallet_dir)
        else if negb wallet_dir_is_directory then
          InitError (walletdir_is_not_a_directory wallet_dir)
        else if negb (Fs.is_absolute wallet_dir) then
          InitError (walletdir_is_a_relative_path wallet_dir)
        else
          ForceSetArg "-walletdir" canonical then!
          VerifyWallets_files wallet_files
    end
  else VerifyWallets_files wallet_files.

(** *** Construct (lines 183-207) *)

(** Lines 189-204: the copy of the legacy wallet on a first start. *)
Definition Construct_legacy_wallet : M unit :=
  let! peersDat := (λ w, (Ret (Fs.join (GetDataDir E (gArgs w)) "peers.dat"), w)) in
  let! peers_exist := Exists peersDat in
  let firstTimeLoad := negb peers_exist in
  if firstTimeLoad then
    let! defaultWalletFile1 :=
      (λ w, (Ret (Fs.join (GetDataDir E (gArgs w)) "wallet.dat"), w)) in
    let! defaultWalletFile2 :=
      (λ w, (Ret (Fs.join (GetWalletDir E (gArgs w) (disk w)) "wallet.dat"), w)) in
    let! defaultWallet1 := WalletLocation defaultWalletFile1 in
    let! defaultWallet2 := WalletLocation defaultWalletFile2 in
    let! legacyWallet :=
      WalletLocation (Fs.join (GetDefaultDataDirLegacy E) "wallet.dat") in
    let! none_but_legacy :=
      mand (let! e := Exists defaultWallet1 in ret (negb e))
        (mand (let! e := Exists defaultWallet2 in ret (negb e))
              (Exists legacyWallet)) in
    if none_but_legacy then
      LogPrintf ("Copying legacy wallet file [" +:+ Fs.quoted legacyWallet
                 +:+ "] to " +:+ Fs.quoted defaultWallet2 +:+ nl) then!
      copy_file legacyWallet defaultWallet2
    else ret tt
  else ret tt.

(** [interfaces.chain_clients.emplace_back(MakeWalletClient(chain, files))] *)
Definition emplace_wallet_client (wallet_filenames : list string) : M unit :=
  λ w, (Ret tt, set_chain_clients (chain_clients w ++ [wallet_filenames]) w).

Definition Construct : M unit :=
  let! disablewallet :=
    GetBoolArg "-disablewallet" (DEFAULT_DISABLE_WALLET E) in
  if disablewallet then LogPrintf ("Wallet disabled!" +:+ nl)
  else
    Construct_legacy_wallet then!
    SoftSetArg "-wallet" "" then!
    let! wallets := GetArgs "-wallet" in
    emplace_wallet_client wallets.

(** *** LoadWallets (lines 209-220) *)

Fixpoint LoadWallets (wallet_files : list string) : M bool :=
  match wallet_files with
  | [] => ret true
  | walletFile :: rest =>
      let! location := WalletLocation walletFile in
      let! pwallet := CreateWalletFromFile location in
      match pwallet with
      | None => ret false
      | Some wallet => AddWallet wallet then! LoadWallets rest
      end
  end.

(** *** StartWallets, FlushWallets, StopWallets (lines 222-244) *)

Definition StartWallets : M unit :=
  let! wallets := GetWallets in
  for_each wallets (λ pwallet, emit (EvPostInitProcess pwallet)) then!
  emit (EvScheduleEvery "MaybeCompactWalletDB" 500).

Definition FlushWallets : M unit :=
  let! wallets := GetWallets in
  for_each wallets (λ pwallet, emit (EvFlush pwallet false)).

Definition StopWallets : M unit :=
  let! wallets := GetWallets in
  for_each wallets (λ pwallet, emit (EvFlush pwallet true)).

(** *** UnloadWallets (lines 246-255)

    The loop takes the copy of the registry from its back until it is
    empty: it visits the copy in reverse. *)

Definition UnloadWallets : M unit :=
  let! wallets := GetWallets in
  for_each (rev wallets) (λ wallet,
    RemoveWallet wallet then!
    UnloadWallet wallet).

End Program.

(** * Vocabulary of the properties *)

(** The call returns [a] in world [w'], and [Q] holds of them. *)
Definition wp {A : Type} (m : M A) (w : World) (Q : A → World → Prop)
  : Prop :=
  ∃ a w', m w = (Ret a, w') ∧ Q a w'.

(** [w] with the option store replaced and more events reported. *)
Definition with_args (a : gmap string (list string)) (evs : list Event)
    (w : World) : World :=
  mkWorld a (disk w) (vpwallets w) (released w) (chain_clients w)
          (trace w ++ evs).

Definition emits (evs : list Event) (w : World) : World :=
  with_args (gArgs w) evs w.

(** The messages given to [InitError], in order. *)
Definition init_errors (evs : list Event) : list string :=
  omap (λ e, match e with EvInitError msg => Some msg | _ => None end) evs.

(** The store after a soft-set. *)
Definition soft (a : gmap string (list string)) (strArg strValue : string)
  : gmap string (list string) :=
  (Args.SoftSetArg a strArg strValue).2.

Definition bool_arg (b : bool) : string := if b then "1" else "0".

(** The options parameter interaction may soft-set. *)
Definition soft_keys : list string :=
  ["-walletbroadcast"; "-rescan"; "-persistmempool"].

(** [a'] comes from [a] by soft-sets only: an option that has a binding in
    [a] keeps it, and only the options of [soft_keys] can get one. *)
Definition soft_ext (a a' : gmap string (list string)) : Prop :=
  ∀ k, (is_Some (a !! k) → a' !! k = a !! k) ∧
       (k ∉ soft_keys → a' !! k = a !! k).

(** What [ParameterInteraction] comes to, stage by stage, as functions of
    the option store: the errors a stage and the stages after it report, and
    the store they leave.  [ParameterInteraction_closed_form] below proves
    that the code computes exactly these. *)

Definition sysperms_errors (a : gmap string (list string)) : list string :=
  if Args.GetBoolArg a "-sysperms" false then [sysperms_error]
  else if negb (Args.GetIntArg a "-prune" 0 =? 0)
          && Args.GetBoolArg a "-rescan" false
       then [pruned_rescan_error]
       else [].

Definition upgrade_errors (is_multiwallet : bool)
    (a : gmap string (list string)) : list string :=
  if is_multiwallet && Args.GetBoolArg a "-upgradewallet" false
  then [single_wallet_only "-upgradewallet"]
  else sysperms_errors a.

Definition zap_store (is_multiwallet : bool)
    (a : gmap string (list string)) : gmap string (list string) :=
  if Args.GetBoolArg a "-zapwallettxes" false then
    if is_multiwallet then soft a "-persistmempool" "0"
    else soft (soft a "-persistmempool" "0") "-rescan" "1"
  else a.

Definition zap_errors (is_multiwallet : bool)
    (a : gmap string (list string)) : list string :=
  if Args.GetBoolArg a "-zapwallettxes" false && is_multiwallet
  then [single_wallet_only "-zapwallettxes"]
  else upgrade_errors is_multiwallet (zap_store is_multiwallet a).

Definition salvage_store (is_multiwallet : bool)
    (a : gmap string (list string)) : gmap string (list string) :=
  if Args.GetBoolArg a "-salvagewallet" false then
    if is_multiwallet then a
    else zap_store is_multiwallet (soft a "-rescan" "1")
  else zap_store is_multiwallet a.

Definition salvage_errors (is_multiwallet : bool)
    (a : gmap string (list string)) : list string :=
  if Args.GetBoolArg a "-salvagewallet" false then
    if is_multiwallet then [single_wallet_only "-salvagewallet"]
    else zap_errors is_multiwallet (soft a "-rescan" "1")
  else zap_errors is_multiwallet a.

Definition is_multiwallet_of (a : gmap string (list string)) : bool :=
  bool_decide (1 < length (Args.GetArgs a "-wallet"))%nat.

Definition blocksonly_store (E : Externals)
    (a : gmap string (list string)) : gmap string (list string) :=
  if Args.GetBoolArg a "-blocksonly" (DEFAULT_BLOCKSONLY E)
  then soft a "-walletbroadcast" "0"
  else a.

Definition interaction_store (E : Externals)
    (a : gmap string (list string)) : gmap string (list string) :=
  salvage_store (is_multiwallet_of a) (blocksonly_store E a).

Definition interaction_errors (E : Externals)
    (a : gmap string (list string)) : list string :=
  salvage_errors (is_multiwallet_of a) (blocksonly_store E a).

(** [w] with the registry replaced and more events reported. *)
Definition with_registry (l : list Handle) (evs : list Event) (w : World)
  : World :=
  mkWorld (gArgs w) (disk w) l (released w) (chain_clients w)
          (trace w ++ evs).

(** The registry after adding the handles [hs] in order. *)
Definition registry_add_all (l hs : list Handle) : list Handle :=
  foldl (λ acc h, registry_add h acc) l hs.

(** What loading one wallet after the other shows: each construction is
    followed at once by the registration of its handle. *)
Definition loaded_events (constructed : list (string * Handle))
  : list Event :=
  flat_map (λ lh, [EvCreateWalletFromFile lh.1; EvAddWallet lh.2])
           constructed.

(** [w] with registry and released handles replaced, more events reported. *)
Definition with_wallets (l rel : list Handle) (evs : list Event) (w : World)
  : World :=
  mkWorld (gArgs w) (disk w) l rel (chain_clients w) (trace w ++ evs).

(** What an event does to the pair of the registry and the released
    handles; replaying a prefix of a trace gives the pair at that point. *)
Definition registry_step (s : list Handle * list Handle) (e : Event)
  : list Handle * list Handle :=
  match e with
  | EvAddWallet h => (registry_add h s.1, s.2)
  | EvRemoveWallet h => (erase_first h s.1, s.2)
  | EvUnloadWallet h => (s.1, s.2 ++ [h])
  | _ => s
  end.

Definition registry_after (s : list Handle * list Handle)
    (evs : list Event) : list Handle * list Handle :=
  foldl registry_step s evs.

(** What unloading shows, for the handles in the order they are taken. *)
Definition unload_events (taken : list Handle) : list Event :=
  flat_map (λ h, [EvRemoveWallet h; EvUnloadWallet h]) taken.

Definition erase_all (l taken : list Handle) : list Handle :=
  foldl (λ acc h, erase_first h acc) l taken.

(** The three wallet locations Construct looks at on a first start, and
    the condition under which it copies the legacy wallet. *)
Definition default_wallet_1 (E : Externals) (w : World) : string :=
  WalletLocation_GetPath E (gArgs w) (disk w)
    (Fs.join (GetDataDir E (gArgs w)) "wallet.dat").

Definition default_wallet_2 (E : Externals) (w : World) : string :=
  WalletLocation_GetPath E (gArgs w) (disk w)
    (Fs.join (GetWalletDir E (gArgs w) (disk w)) "wallet.dat").

Definition legacy_wallet (E : Externals) (w : World) : string :=
  WalletLocation_GetPath E (gArgs w) (disk w)
    (Fs.join (GetDefaultDataDirLegacy E) "wallet.dat").

Definition first_time_load (E : Externals) (w : World) : bool :=
  negb (Fs.exists_ (disk w) (Fs.join (GetDataDir E (gArgs w)) "peers.dat")).

Definition legacy_copy_due (E : Externals) (w : World) : bool :=
  first_time_load E w &&
  (negb (Fs.exists_ (disk w) (default_wallet_1 E w)) &&
   (negb (Fs.exists_ (disk w) (default_wallet_2 E w)) &&
    Fs.exists_ (disk w) (legacy_wallet E w))).

Definition legacy_copy_events (E : Externals) (w : World) : list Event :=
  [EvLogPrintf ("Copying legacy wallet file [" +:+
                Fs.quoted (legacy_wallet E w) +:+ "] to " +:+
                Fs.quoted (default_wallet_2 E w) +:+ nl);
   EvCopyFile (legacy_wallet E w) (default_wallet_2 E w)].

(** The disk as the copy of the legacy wallet finds it, and what the copy
    makes of it: [None] when the call throws. *)
Definition disk_at_copy (E : Externals) (w : World) : gmap string Fs.node :=
  other_processes E (disk w).

Definition legacy_copy_result (E : Externals) (w : World)
  : option (gmap string Fs.node) :=
  if copy_file_error E (disk_at_copy E w)
       (legacy_wallet E w) (default_wallet_2 E w)
  then None
  else Fs.copy_file_fail_if_exists (disk_at_copy E w)
         (legacy_wallet E w) (default_wallet_2 E w).

(** The wallet files Construct hands to the wallet client. *)
Definition client_wallets (a : gmap string (list string)) : list string :=
  if Args.IsArgSet a "-wallet" then Args.GetArgs a "-wallet" else [""].

(** What the verification of one wallet shows: the call, then its error
    and its warning when it gives one. *)
Definition verify_events (E : Externals) (d : gmap string Fs.node)
    (salvage_wallet : bool) (location : string) : list Event :=
  EvVerify location salvage_wallet ::
  (if decide ((CWallet_Verify E d location salvage_wallet).1.2 = "")
   then [] else [EvInitError (CWallet_Verify E d location salvage_wallet).1.2])
  ++
  (if decide ((CWallet_Verify E d location salvage_wallet).2 = "")
   then [] else [EvInitWarning (CWallet_Verify E d location salvage_wallet).2]).

Definition verify_success (E : Externals) (d : gmap string Fs.node)
    (salvage_wallet : bool) (location : string) : bool :=
  (CWallet_Verify E d location salvage_wallet).1.1.

(** The set of locations after more of them were seen. *)
Definition seen_after (seen : gset string) (locations : list string)
  : gset string :=
  foldl (λ s l, {[l]} ∪ s) seen locations.

(** The world in which the wallets get verified: the one in which the
    checks of lines 137-151 on -walletdir have passed, if they do. *)
Definition after_walletdir (E : Externals) (w : World) : option World :=
  if Args.IsArgSet (gArgs w) "-walletdir" then
    let wallet_dir := Args.GetArg (gArgs w) "-walletdir" "" in
    match fs_canonical E (disk w) wallet_dir with
    | Some canonical =>
        if Fs.exists_ (disk w) wallet_dir
           && Fs.is_directory (disk w) wallet_dir
           && Fs.is_absolute wallet_dir
        then Some (set_gArgs
                     (Args.ForceSetArg (gArgs w) "-walletdir" canonical) w)
        else None
    | None => None
    end
  else Some w.

Definition verify_header (E : Externals) (w : World) : list Event :=
  [EvLogPrintf ("Using wallet directory " +:+
                GetWalletDir E (gArgs w) (disk w) +:+ nl);
   EvInitMessage "Verifying wallet(s)..."].

Definition verify_flag_is (salvage_wallet : bool) (e : Event) : Prop :=
  match e with
  | EvVerify _ flag => flag = salvage_wallet
  | _ => True
  end.

(** The salvage flag VerifyWallets computes (line 160). *)
Definition salvage_flag (a : gmap string (list string))
    (wallet_files : list string) : bool :=
  Args.GetBoolArg a "-salvagewallet" false
  && bool_decide (length wallet_files ≤ 1)%nat.

(** Whether a rescan is on once the soft-sets are made: what -rescan was
    given as, or, when it was not given, whether salvage or zap asked for it. *)
Definition effective_rescan (a : gmap string (list string)) : bool :=
  match a !! "-rescan" with
  | Some _ => Args.GetBoolArg a "-rescan" false
  | None => Args.GetBoolArg a "-salvagewallet" false
            || Args.GetBoolArg a "-zapwallettxes" false
  end.

(** The rules of ParameterInteraction in the order the code checks them, on
    the store as it was given: the error of the first rule that fails. *)
Definition first_failing_rule (a : gmap string (list string)) : list string :=
  if is_multiwallet_of a && Args.GetBoolArg a "-salvagewallet" false
  then [single_wallet_only "-salvagewallet"]
  else if is_multiwallet_of a && Args.GetBoolArg a "-zapwallettxes" false
  then [single_wallet_only "-zapwallettxes"]
  else if is_multiwallet_of a && Args.GetBoolArg a "-upgradewallet" false
  then [single_wallet_only "-upgradewallet"]
  else if Args.GetBoolArg a "-sysperms" false
  then [sysperms_error]
  else if negb (Args.GetIntArg a "-prune" 0 =? 0) && effective_rescan a
  then [pruned_rescan_error]
  else [].

(** The messages given to [InitWarning], in order. *)
Definition init_warnings (evs : list Event) : list string :=
  omap (λ e, match e with EvInitWarning msg => Some msg | _ => None end) evs.

Definition high_fee_warning (E : Externals) : string :=
  AmountHighWarn E "-minrelaytxfee" +:+ " " +:+
  "The wallet will avoid paying less than the minimum relay fee.".

(** From world [w] the call returned [r] in world [w'], and the warnings
    reported on the way are the fee warning when [r] is true and the minimum
    relay fee is above the threshold, none otherwise. *)
Definition warns_of_fee (E : Externals) (w : World) (r : bool) (w' : World)
  : Prop :=
  ∃ evs, trace w' = trace w ++ evs ∧
         init_warnings evs =
         if r && (HIGH_TX_FEE_PER_KB E <? minRelayTxFee_GetFeePerK E)
         then [high_fee_warning E] else [].

(** The line logged for a wallet that is ignored (line 79). *)
Definition ignoring_wallet (wallet : string) : Event :=
  EvLogPrintf
    ("ParameterInteraction: parameter interaction: -disablewallet -> ignoring -wallet="
       +:+ wallet +:+ nl).

(** The events the verification stage can leave: reports and calls of the
    verification, nothing that constructs, registers or releases a wallet. *)
Definition verify_stage_event (e : Event) : Prop :=
  match e with
  | EvLogPrintf _ | EvInitError _ | EvInitWarning _ | EvInitMessage _
  | EvVerify _ _ => True
  | _ => False
  end.

(** LoadWallets in closed form, for a store and a disk: the handles it
    constructs (those of the wallet files before the first that fails), what
    it shows, and whether it gets through all wallet files. *)
Fixpoint constructed_handles (E : Externals) (a : gmap string (list string))
    (d : gmap string Fs.node) (wallet_files : list string) : list Handle :=
  match wallet_files with
  | [] => []
  | f :: rest =>
      match CWallet_CreateWalletFromFile E d (WalletLocation_GetPath E a d f)
      with
      | Some h => h :: constructed_handles E a d rest
      | None => []
      end
  end.

Fixpoint load_trace (E : Externals) (a : gmap string (list string))
    (d : gmap string Fs.node) (wallet_files : list string) : list Event :=
  match wallet_files with
  | [] => []
  | f :: rest =>
      EvCreateWalletFromFile (WalletLocation_GetPath E a d f) ::
      match CWallet_CreateWalletFromFile E d (WalletLocation_GetPath E a d f)
      with
      | Some h => EvAddWallet h :: load_trace E a d rest
      | None => []
      end
  end.

Definition all_constructed (E : Externals) (a : gmap string (list string))
    (d : gmap string Fs.node) (wallet_files : list string) : bool :=
  forallb (λ f, bool_decide (is_Some
             (CWallet_CreateWalletFromFile E d
                (WalletLocation_GetPath E a d f)))) wallet_files.

(** What the wallets of a registry show from start to shutdown, after they
    are loaded and before they are unloaded. *)
Definition running_events (registry : list Handle) : list Event :=
  map EvPostInitProcess registry ++
  [EvScheduleEvery "MaybeCompactWalletDB" 500] ++
  map (λ h, EvFlush h false) registry ++
  map (λ h, EvFlush h true) registry.

(** ** A concrete node, for examples

    Externals of a node whose data directory is [/data]; a wallet whose file
    reads "corrupt" fails verification and construction, handles are told
    apart by the length of the location. *)

Definition is_corrupt (d : gmap string Fs.node) (location : string) : bool :=
  match d !! location with
  | Some (Fs.RegularFile "corrupt") => true
  | _ => false
  end.

Definition node_externals : Externals := {|
  DEFAULT_DISABLE_WALLET := false;
  DEFAULT_BLOCKSONLY := false;
  HIGH_TX_FEE_PER_KB := 1000000;
  minRelayTxFee_GetFeePerK := 1000;
  AmountHighWarn := λ optname, optname +:+ " is set very high!";
  GetDataDir := λ _, "/data";
  GetDefaultDataDirLegacy := "/legacy";
  GetWalletDir := λ a d,
    if Args.IsArgSet a "-walletdir" then Args.GetArg a "-walletdir" ""
    else if Fs.is_directory d "/data/wallets" then "/data/wallets"
    else "/data";
  WalletLocation_GetPath := λ a d name,
    if Fs.is_absolute name then name
    else Fs.join
           (if Args.IsArgSet a "-walletdir" then Args.GetArg a "-walletdir" ""
            else if Fs.is_directory d "/data/wallets" then "/data/wallets"
            else "/data") name;
  fs_canonical := λ d p, if Fs.exists_ d p then Some p else None;
  other_processes := λ d, d;
  copy_file_error := λ d from to, false;
  CWallet_Verify := λ d location salvage_wallet,
    if is_corrupt d location then (false, "Corrupt wallet " +:+ location, "")
    else (true, "", "");
  CWallet_CreateWalletFromFile := λ d location,
    if is_corrupt d location then None else Some (String.length location)
|}.

(** The same node, with another process that writes a wallet of its own to
    the default location of the wallet directory after Construct has looked
    at the disk and before it copies. *)
Definition racing_externals : Externals := {|
  DEFAULT_DISABLE_WALLET := DEFAULT_DISABLE_WALLET node_externals;
  DEFAULT_BLOCKSONLY := DEFAULT_BLOCKSONLY node_externals;
  HIGH_TX_FEE_PER_KB := HIGH_TX_FEE_PER_KB node_externals;
  minRelayTxFee_GetFeePerK := minRelayTxFee_GetFeePerK node_externals;
  AmountHighWarn := AmountHighWarn node_externals;
  GetDataDir := GetDataDir node_externals;
  GetDefaultDataDirLegacy := GetDefaultDataDirLegacy node_externals;
  GetWalletDir := GetWalletDir node_externals;
  WalletLocation_GetPath := WalletLocation_GetPath node_externals;
  fs_canonical := fs_canonical node_externals;
  other_processes := λ d, <["/data/wallet.dat" := Fs.RegularFile "theirs"]> d;
  copy_file_error := copy_file_error node_externals;
  CWallet_Verify := CWallet_Verify node_externals;
  CWallet_CreateWalletFromFile := CWallet_CreateWalletFromFile node_externals
|}.

Definition world_of (a : list (string * list string))
    (d : list (string * Fs.node)) (registry : list Handle) : World :=
  mkWorld (list_to_map a) (list_to_map d) registry [] [] [].

(** * Properties *)

(** ** The monad *)

Lemma wp_ret {A} (a : A) w (Q : A → World → Prop) : Q a w → wp (ret a) w Q.
Proof. intros HQ. exists a, w. done. Qed.

Lemma wp_bind {A B} (m : M A) (f : A → M B) w (Q : B → World → Prop) :
  wp m w (λ a w1, wp (f a) w1 Q) → wp (bind m f) w Q.
Proof.
  intros (a & w1 & Hm & b & w2 & Hf & HQ).
  exists b, w2. split; [|done]. unfold bind. by rewrite Hm.
Qed.

Lemma wp_mono {A} (m : M A) w (Q Q' : A → World → Prop) :
  wp m w Q → (∀ a w', Q a w' → Q' a w') → wp m w Q'.
Proof. intros (a & w' & Hm & HQ) Himp. exists a, w'. eauto. Qed.

Lemma wp_pure {A} (g : World → A) w (Q : A → World → Prop) :
  Q (g w) w → wp (λ w0, (Ret (g w0), w0)) w Q.
Proof. intros HQ. by exists (g w), w. Qed.

Lemma with_args_with_args a1 a2 e1 e2 w :
  with_args a2 e2 (with_args a1 e1 w) = with_args a2 (e1 ++ e2) w.
Proof. unfold with_args. cbn. by rewrite app_assoc. Qed.

Lemma emits_emits e1 e2 w : emits e2 (emits e1 w) = emits (e1 ++ e2) w.
Proof. apply with_args_with_args. Qed.

Lemma emits_nil w : emits [] w = w.
Proof. destruct w. unfold emits, with_args. cbn. by rewrite app_nil_r. Qed.

Lemma emits_inj e1 e2 w : emits e1 w = emits e2 w → e1 = e2.
Proof.
  intros H. apply (f_equal trace) in H. cbn in H.
  by apply app_inv_head in H.
Qed.

Lemma init_errors_app e1 e2 :
  init_errors (e1 ++ e2) = init_errors e1 ++ init_errors e2.
Proof. unfold init_errors. apply omap_app. Qed.

Lemma wp_emit e w (Q : unit → World → Prop) :
  Q tt (emits [e] w) → wp (emit e) w Q.
Proof. intros HQ. by exists tt, (emits [e] w). Qed.

Lemma wp_InitError msg w (Q : bool → World → Prop) :
  Q false (emits [EvInitError msg] w) → wp (InitError msg) w Q.
Proof. intros HQ. by exists false, (emits [EvInitError msg] w). Qed.

Lemma wp_GetBoolArg k d w (Q : bool → World → Prop) :
  Q (Args.GetBoolArg (gArgs w) k d) w → wp (GetBoolArg k d) w Q.
Proof. apply (wp_pure (λ w0, Args.GetBoolArg (gArgs w0) k d)). Qed.

Lemma wp_GetIntArg k d w (Q : Z → World → Prop) :
  Q (Args.GetIntArg (gArgs w) k d) w → wp (GetIntArg k d) w Q.
Proof. apply (wp_pure (λ w0, Args.GetIntArg (gArgs w0) k d)). Qed.

Lemma wp_GetArgs k w (Q : list string → World → Prop) :
  Q (Args.GetArgs (gArgs w) k) w → wp (GetArgs k) w Q.
Proof. apply (wp_pure (λ w0, Args.GetArgs (gArgs w0) k)). Qed.

Lemma emits_with_args a e1 e2 w :
  emits e2 (with_args a e1 w) = with_args a (e1 ++ e2) w.
Proof. apply with_args_with_args. Qed.

Lemma mand_ret_true (b : M bool) : mand (ret true) b = b.
Proof. reflexivity. Qed.

Lemma mwhen_ret_false (b : M bool) (body : M unit) :
  mwhen (mand (ret false) b) body = ret tt.
Proof. reflexivity. Qed.

(** ** The option store *)

Lemma IsArgSet_lookup (a : gmap string (list string)) k :
  Args.IsArgSet a k = bool_decide (is_Some (a !! k)).
Proof.
  unfold Args.IsArgSet, Args.IsArgNegated, Args.Find.
  destruct (a !! k) as [[|v l]|] eqn:Hk.
  - rewrite (bool_decide_eq_true_2 (Some [] = Some [])) by done.
    by rewrite (bool_decide_eq_true_2 (is_Some (Some []))) by eauto.
  - rewrite (bool_decide_eq_false_2 (Some (v :: l) = Some [])) by done.
    rewrite (bool_decide_eq_true_2 (is_Some (Some (v :: l)))) by eauto.
    apply bool_decide_eq_true_2. cbn. by apply last_is_Some.
  - rewrite (bool_decide_eq_false_2 (None = Some [])) by done.
    rewrite (bool_decide_eq_false_2 (is_Some None)) by (by intros [? ?]).
    apply bool_decide_eq_false_2. cbn. by intros [? ?].
Qed.

Lemma lookup_soft (a : gmap string (list string)) k v k' :
  soft a k v !! k' =
  match a !! k' with
  | Some l => Some l
  | None => if decide (k = k') then Some [v] else None
  end.
Proof.
  unfold soft, Args.SoftSetArg, Args.ForceSetArg.
  rewrite IsArgSet_lookup. case_bool_decide as Hset; cbn.
  - destruct (a !! k') eqn:Hk'; [done|].
    case_decide; [|done]. subst. rewrite Hk' in Hset. by destruct Hset.
  - rewrite lookup_insert. case_decide; subst.
    + destruct (a !! k') eqn:Hk'; [|done]. exfalso. apply Hset. eauto.
    + by destruct (a !! k').
Qed.

Lemma GetBoolArg_lookup (a a' : gmap string (list string)) k d :
  a' !! k = a !! k → Args.GetBoolArg a' k d = Args.GetBoolArg a k d.
Proof.
  intros H. unfold Args.GetBoolArg, Args.IsArgNegated, Args.Find.
  by rewrite H.
Qed.

Lemma GetIntArg_lookup (a a' : gmap string (list string)) k d :
  a' !! k = a !! k → Args.GetIntArg a' k d = Args.GetIntArg a k d.
Proof.
  intros H. unfold Args.GetIntArg, Args.IsArgNegated, Args.Find.
  by rewrite H.
Qed.

Lemma GetArgs_lookup (a a' : gmap string (list string)) k :
  a' !! k = a !! k → Args.GetArgs a' k = Args.GetArgs a k.
Proof.
  intros H. unfold Args.GetArgs, Args.IsArgNegated. by rewrite H.
Qed.

Lemma soft_ext_refl a : soft_ext a a.
Proof. by intros k. Qed.

Lemma soft_ext_trans a1 a2 a3 :
  soft_ext a1 a2 → soft_ext a2 a3 → soft_ext a1 a3.
Proof.
  intros H12 H23 k. destruct (H12 k) as [Hs Hk], (H23 k) as [Hs' Hk'].
  split.
  - intros Hsome. rewrite <- (Hs Hsome). apply Hs'. by rewrite (Hs Hsome).
  - intros Hn. by rewrite (Hk' Hn), (Hk Hn).
Qed.

Lemma soft_ext_soft a k v : k ∈ soft_keys → soft_ext a (soft a k v).
Proof.
  intros Hin k'. rewrite lookup_soft. split.
  - intros [l Hl]. by rewrite Hl.
  - intros Hn. destruct (a !! k'); [done|].
    case_decide; [|done]. by subst.
Qed.

(** A soft-set with its log line: whether the line is printed or not, the
    store is the soft-set one and no error is reported. *)
Lemma wp_soft_logged k b line w (Q : unit → World → Prop) :
  (∀ evs, init_errors evs = [] →
          Q tt (with_args (soft (gArgs w) k (bool_arg b)) evs w)) →
  wp (mwhen (SoftSetBoolArg k b) (LogPrintf line)) w Q.
Proof.
  intros HQ. unfold wp, mwhen, bind, SoftSetBoolArg, Args.SoftSetBoolArg.
  specialize (HQ []) as HQ0. specialize (HQ [EvLogPrintf line]) as HQ1.
  unfold soft, bool_arg in *.
  destruct (Args.SoftSetArg (gArgs w) k (if b then "1" else "0"))
    as [[] a'] eqn:Hs; cbn in *.
  - eexists _, _. split; [reflexivity|]. by apply HQ1.
  - eexists _, _. split; [reflexivity|].
    specialize (HQ0 eq_refl). unfold with_args in HQ0.
    by rewrite app_nil_r in HQ0.
Qed.

(** ** ParameterInteraction, stage by stage *)

Section ParameterInteractionStages.

Context (E : Externals).

Lemma sysperms_stage w :
  wp (ParameterInteraction_sysperms E) w (λ r w',
    ∃ evs, w' = emits evs w ∧
           r = bool_decide (sysperms_errors (gArgs w) = []) ∧
           init_errors evs = sysperms_errors (gArgs w)).
Proof.
  unfold ParameterInteraction_sysperms, sysperms_errors.
  apply wp_bind, wp_GetBoolArg.
  destruct (Args.GetBoolArg (gArgs w) "-sysperms" false).
  { apply wp_InitError. by eexists. }
  apply wp_bind. unfold mand.
  apply wp_bind, wp_bind, wp_GetIntArg, wp_ret.
  destruct (Args.GetIntArg (gArgs w) "-prune" 0 =? 0); cbn [negb andb].
  - apply wp_ret, wp_bind.
    destruct (HIGH_TX_FEE_PER_KB E <? minRelayTxFee_GetFeePerK E).
    + apply wp_emit, wp_ret. by eexists.
    + apply wp_ret, wp_ret. exists []. by rewrite emits_nil.
  - apply wp_GetBoolArg.
    destruct (Args.GetBoolArg (gArgs w) "-rescan" false).
    + apply wp_InitError. by eexists.
    + apply wp_bind.
      destruct (HIGH_TX_FEE_PER_KB E <? minRelayTxFee_GetFeePerK E).
      * apply wp_emit, wp_ret. by eexists.
      * apply wp_ret, wp_ret. exists []. by rewrite emits_nil.
Qed.

Lemma upgrade_stage is_multiwallet w :
  wp (ParameterInteraction_upgrade E is_multiwallet) w (λ r w',
    ∃ evs, w' = emits evs w ∧
           r = bool_decide (upgrade_errors is_multiwallet (gArgs w) = []) ∧
           init_errors evs = upgrade_errors is_multiwallet (gArgs w)).
Proof.
  unfold ParameterInteraction_upgrade, upgrade_errors.
  destruct is_multiwallet; cbn [andb]; [|apply sysperms_stage].
  apply wp_bind, wp_GetBoolArg.
  destruct (Args.GetBoolArg (gArgs w) "-upgradewallet" false).
  - apply wp_InitError. by eexists.
  - apply sysperms_stage.
Qed.

Lemma zap_stage is_multiwallet w :
  wp (ParameterInteraction_zap E is_multiwallet) w (λ r w',
    ∃ evs, w' = with_args (zap_store is_multiwallet (gArgs w)) evs w ∧
           r = bool_decide (zap_errors is_multiwallet (gArgs w) = []) ∧
           init_errors evs = zap_errors is_multiwallet (gArgs w)).
Proof.
  unfold ParameterInteraction_zap, zap_errors, zap_store.
  apply wp_bind, wp_GetBoolArg.
  destruct (Args.GetBoolArg (gArgs w) "-zapwallettxes" false); cbn [andb].
  - rewrite mand_ret_true. apply wp_bind, wp_soft_logged.
    intros evs1 Hevs1. destruct is_multiwallet.
    + apply wp_InitError. eexists. rewrite emits_with_args.
      split; [done|]. rewrite init_errors_app, Hevs1. done.
    + apply wp_bind, wp_soft_logged. intros evs2 Hevs2.
      rewrite with_args_with_args.
      eapply wp_mono; [apply upgrade_stage|].
      intros r w' (evs3 & -> & -> & Herr).
      rewrite emits_with_args. eexists. split; [done|].
      rewrite !init_errors_app, Hevs1, Hevs2. done.
  - rewrite mwhen_ret_false. apply wp_bind, wp_ret.
    eapply wp_mono; [apply upgrade_stage|].
    intros r w' (evs & -> & -> & Herr). by exists evs.
Qed.

Lemma salvage_stage is_multiwallet w :
  wp (ParameterInteraction_salvage E is_multiwallet) w (λ r w',
    ∃ evs, w' = with_args (salvage_store is_multiwallet (gArgs w)) evs w ∧
           r = bool_decide (salvage_errors is_multiwallet (gArgs w) = []) ∧
           init_errors evs = salvage_errors is_multiwallet (gArgs w)).
Proof.
  unfold ParameterInteraction_salvage, salvage_errors, salvage_store.
  apply wp_bind, wp_GetBoolArg.
  destruct (Args.GetBoolArg (gArgs w) "-salvagewallet" false).
  - destruct is_multiwallet.
    + apply wp_InitError. by eexists.
    + apply wp_bind, wp_soft_logged. intros evs1 Hevs1.
      eapply wp_mono; [apply zap_stage|].
      intros r w' (evs2 & -> & -> & Herr).
      rewrite with_args_with_args. eexists. split; [done|].
      rewrite init_errors_app, Hevs1. done.
  - apply zap_stage.
Qed.

End ParameterInteractionStages.

(** ** ParameterInteraction as a whole *)

Lemma wp_mwhen_mand_GetBoolArg k d (s : M bool) (body : M unit) w
    (Q : unit → World → Prop) :
  (if Args.GetBoolArg (gArgs w) k d then wp (mwhen s body) w Q else Q tt w) →
  wp (mwhen (mand (GetBoolArg k d) s) body) w Q.
Proof.
  unfold wp, mwhen, mand, bind, GetBoolArg, ret.
  destruct (Args.GetBoolArg (gArgs w) k d); [done|].
  intros HQ. by eexists _, _.
Qed.

Lemma for_each_LogPrintf {A} (line : A → string) (l : list A) w :
  for_each l (λ x, LogPrintf (line x)) w
  = (Ret tt, emits (map (λ x, EvLogPrintf (line x)) l) w).
Proof.
  revert w. induction l as [|x l IH]; intros w; cbn [for_each map].
  - by rewrite emits_nil.
  - unfold bind. cbn. rewrite IH. f_equal.
    exact (emits_emits [EvLogPrintf (line x)] _ w).
Qed.

Lemma init_errors_LogPrintf {A} (line : A → string) (l : list A) :
  init_errors (map (λ x, EvLogPrintf (line x)) l) = [].
Proof. induction l; [done|]. cbn. done. Qed.

Lemma ParameterInteraction_disabled E w :
  Args.GetBoolArg (gArgs w) "-disablewallet" (DEFAULT_DISABLE_WALLET E)
    = true →
  ∃ evs, ParameterInteraction E w = (Ret true, emits evs w) ∧
         init_errors evs = [].
Proof.
  intros Hd. unfold ParameterInteraction, bind, GetBoolArg, GetArgs, ret.
  rewrite Hd. rewrite for_each_LogPrintf.
  eexists. split; [done|]. apply init_errors_LogPrintf.
Qed.

Lemma ParameterInteraction_closed_form E w :
  Args.GetBoolArg (gArgs w) "-disablewallet" (DEFAULT_DISABLE_WALLET E)
    = false →
  ∃ evs,
    ParameterInteraction E w
    = (Ret (bool_decide (interaction_errors E (gArgs w) = [])),
       with_args (interaction_store E (gArgs w)) evs w) ∧
    init_errors evs = interaction_errors E (gArgs w).
Proof.
  intros Hd.
  enough (wp (ParameterInteraction E) w (λ r w',
    ∃ evs, w' = with_args (interaction_store E (gArgs w)) evs w ∧
           r = bool_decide (interaction_errors E (gArgs w) = []) ∧
           init_errors evs = interaction_errors E (gArgs w)))
    as (r & w' & Hrun & evs & -> & -> & Herr) by eauto.
  unfold ParameterInteraction, interaction_store, interaction_errors,
    blocksonly_store, is_multiwallet_of.
  apply wp_bind, wp_GetBoolArg. rewrite Hd.
  apply wp_bind, wp_GetArgs, wp_bind, wp_mwhen_mand_GetBoolArg.
  destruct (Args.GetBoolArg (gArgs w) "-blocksonly" (DEFAULT_BLOCKSONLY E)).
  - apply wp_soft_logged. intros evs1 Hevs1.
    eapply wp_mono; [apply salvage_stage|].
    intros r w' (evs2 & -> & -> & Herr).
    rewrite with_args_with_args. eexists. split; [done|].
    rewrite init_errors_app, Hevs1. done.
  - eapply wp_mono; [apply salvage_stage|].
    intros r w' (evs & -> & -> & Herr). by exists evs.
Qed.

Lemma blocksonly_store_lookup E (a : gmap string (list string)) k :
  k ≠ "-walletbroadcast" → blocksonly_store E a !! k = a !! k.
Proof.
  intros Hk. unfold blocksonly_store.
  destruct (Args.GetBoolArg a "-blocksonly" (DEFAULT_BLOCKSONLY E)); [|done].
  rewrite lookup_soft. destruct (a !! k); [done|].
  case_decide; [|done]. by subst.
Qed.

(** With more than one wallet, the first of the three single-wallet options
    that is on decides the error. *)
Lemma multiwallet_errors E (a : gmap string (list string)) :
  is_multiwallet_of a = true →
  interaction_errors E a =
  if Args.GetBoolArg a "-salvagewallet" false
  then [single_wallet_only "-salvagewallet"]
  else if Args.GetBoolArg a "-zapwallettxes" false
  then [single_wallet_only "-zapwallettxes"]
  else if Args.GetBoolArg a "-upgradewallet" false
  then [single_wallet_only "-upgradewallet"]
  else sysperms_errors (blocksonly_store E a).
Proof.
  intros Hm. unfold interaction_errors. rewrite Hm.
  unfold salvage_errors, zap_errors, zap_store, upgrade_errors.
  rewrite (GetBoolArg_lookup a _ "-salvagewallet")
    by (by apply blocksonly_store_lookup).
  rewrite (GetBoolArg_lookup a _ "-zapwallettxes")
    by (by apply blocksonly_store_lookup).
  destruct (Args.GetBoolArg a "-salvagewallet" false); [done|].
  destruct (Args.GetBoolArg a "-zapwallettxes" false); [done|].
  cbn [andb].
  rewrite (GetBoolArg_lookup a _ "-upgradewallet")
    by (by apply blocksonly_store_lookup).
  done.
Qed.

Lemma with_args_trace a evs w : trace (with_args a evs w) = trace w ++ evs.
Proof. done. Qed.

(** C3. With wallets enabled and more than one wallet configured,
    ParameterInteraction fails whenever -salvagewallet is on, whatever
    -upgradewallet is, and whenever -upgradewallet is on, whatever
    -salvagewallet is.  Exactly one error is reported, "<option> is only
    allowed with a single wallet file"; the option named is -salvagewallet
    when salvage is on, and -upgradewallet when upgrade is on and neither
    salvage nor zap is (zap, checked before upgrade, is named otherwise). *)
Theorem multiwallet_rejects_salvage_and_upgrade E w :
  Args.GetBoolArg (gArgs w) "-disablewallet" (DEFAULT_DISABLE_WALLET E)
    = false →
  (1 < length (Args.GetArgs (gArgs w) "-wallet"))%nat →
  Args.GetBoolArg (gArgs w) "-salvagewallet" false = true
  ∨ Args.GetBoolArg (gArgs w) "-upgradewallet" false = true →
  ∃ w' evs,
    ParameterInteraction E w = (Ret false, w') ∧
    trace w' = trace w ++ evs ∧
    init_errors evs =
      [single_wallet_only
         (if Args.GetBoolArg (gArgs w) "-salvagewallet" false
          then "-salvagewallet"
          else if Args.GetBoolArg (gArgs w) "-zapwallettxes" false
          then "-zapwallettxes"
          else "-upgradewallet")].
Proof.
  intros Hd Hm Hopt.
  destruct (ParameterInteraction_closed_form E w Hd) as (evs & Hrun & Herr).
  rewrite multiwallet_errors in Hrun, Herr
    by (by apply bool_decide_eq_true_2).
  assert (Herrs : ∃ opt,
    (if Args.GetBoolArg (gArgs w) "-salvagewallet" false
     then [single_wallet_only "-salvagewallet"]
     else if Args.GetBoolArg (gArgs w) "-zapwallettxes" false
     then [single_wallet_only "-zapwallettxes"]
     else if Args.GetBoolArg (gArgs w) "-upgradewallet" false
     then [single_wallet_only "-upgradewallet"]
     else sysperms_errors (blocksonly_store E (gArgs w)))
    = [single_wallet_only opt] ∧
    opt = (if Args.GetBoolArg (gArgs w) "-salvagewallet" false
           then "-salvagewallet"
           else if Args.GetBoolArg (gArgs w) "-zapwallettxes" false
           then "-zapwallettxes"
           else "-upgradewallet")).
  { destruct (Args.GetBoolArg (gArgs w) "-salvagewallet" false); [by eexists|].
    destruct (Args.GetBoolArg (gArgs w) "-zapwallettxes" false); [by eexists|].
    destruct Hopt as [|Hup]; [done|]. rewrite Hup. by eexists. }
  destruct Herrs as (opt & Heq & ->). rewrite Heq in Hrun, Herr.
  eexists _, evs. split; [exact Hrun|]. by split.
Qed.

Lemma multiwallet_rejects_salvage_and_upgrade_witness :
  ∃ w' evs,
    ParameterInteraction node_externals
      (world_of [("-wallet", ["a"; "b"]); ("-salvagewallet", ["1"]);
                 ("-upgradewallet", ["1"])] [] [])
    = (Ret false, w') ∧
    trace w' = [] ++ evs ∧
    init_errors evs = [single_wallet_only "-salvagewallet"].
Proof.
  apply (multiwallet_rejects_salvage_and_upgrade node_externals
           (world_of [("-wallet", ["a"; "b"]); ("-salvagewallet", ["1"]);
                      ("-upgradewallet", ["1"])] [] [])).
  - vm_compute. reflexivity.
  - vm_compute. lia.
  - left. vm_compute. reflexivity.
Defined.

Lemma lookup_soft_ne (a : gmap string (list string)) k v k' :
  k ≠ k' → soft a k v !! k' = a !! k'.
Proof.
  intros Hk. rewrite lookup_soft. destruct (a !! k'); [done|].
  by case_decide.
Qed.

Lemma lookup_soft_eq (a : gmap string (list string)) k v :
  soft a k v !! k = Some (default [v] (a !! k)).
Proof.
  rewrite lookup_soft. destruct (a !! k); [done|]. by case_decide.
Qed.

Ltac not_a_soft_key :=
  let H := fresh in
  unfold soft_keys; intros H;
  repeat (apply elem_of_cons in H as [H|H]; [discriminate H|]);
  by apply elem_of_nil in H.

Ltac soft_lookups :=
  repeat first
    [ rewrite lookup_soft_eq
    | rewrite lookup_soft_ne by done
    | rewrite blocksonly_store_lookup by done ].

(** A single wallet and zap on: both soft-sets are made, and the last
    checks decide. *)
Lemma zap_single_wallet E (a : gmap string (list string)) :
  is_multiwallet_of a = false →
  Args.GetBoolArg a "-zapwallettxes" false = true →
  interaction_store E a !! "-rescan" = Some (default ["1"] (a !! "-rescan")) ∧
  interaction_store E a !! "-persistmempool"
    = Some (default ["0"] (a !! "-persistmempool")) ∧
  (∀ k, k ∉ soft_keys → interaction_store E a !! k = a !! k) ∧
  interaction_errors E a = sysperms_errors (interaction_store E a).
Proof.
  intros Hm Hzap. unfold interaction_store, interaction_errors. rewrite Hm.
  unfold salvage_errors, salvage_store, zap_errors, zap_store, upgrade_errors.
  assert (Hz1 : Args.GetBoolArg (blocksonly_store E a) "-zapwallettxes" false
                = true).
  { rewrite (GetBoolArg_lookup a) by (by apply blocksonly_store_lookup).
    exact Hzap. }
  assert (Hz2 : Args.GetBoolArg (soft (blocksonly_store E a) "-rescan" "1")
                  "-zapwallettxes" false = true).
  { rewrite (GetBoolArg_lookup (blocksonly_store E a))
      by (by apply lookup_soft_ne).
    exact Hz1. }
  rewrite Hz1, Hz2. cbn [andb].
  assert (Hother : ∀ k, k ∉ soft_keys → k ≠ "-walletbroadcast" ∧
            k ≠ "-rescan" ∧ k ≠ "-persistmempool").
  { intros k Hk. unfold soft_keys in Hk. set_solver. }
  destruct (Args.GetBoolArg (blocksonly_store E a) "-salvagewallet" false).
  - split; [soft_lookups; by destruct (a !! "-rescan")|].
    split; [by soft_lookups|]. split; [|done].
    intros k (? & ? & ?)%Hother. by soft_lookups.
  - split; [by soft_lookups|]. split; [by soft_lookups|]. split; [|done].
    intros k (? & ? & ?)%Hother. by soft_lookups.
Qed.

Lemma sysperms_errors_nil (a : gmap string (list string)) :
  sysperms_errors a = [] ↔
  Args.GetBoolArg a "-sysperms" false = false ∧
  ¬ (Args.GetIntArg a "-prune" 0 ≠ 0 ∧
     Args.GetBoolArg a "-rescan" false = true).
Proof.
  unfold sysperms_errors.
  destruct (Args.GetBoolArg a "-sysperms" false); [by split; [|intros []]|].
  destruct (Z.eqb_spec (Args.GetIntArg a "-prune" 0) 0) as [Hp|Hp];
    cbn [negb andb].
  - split; [|done]. intros _. split; [done|]. by intros [? _].
  - destruct (Args.GetBoolArg a "-rescan" false).
    + split; [done|]. intros [_ Hn]. by destruct Hn.
    + split; [|done]. intros _. split; [done|]. by intros [_ ?].
Qed.

(** The modes of -zapwallettxes, 1 and 2, both read as the option being on. *)
Lemma zap_modes_request (a : gmap string (list string)) mode :
  mode = "1" ∨ mode = "2" →
  a !! "-zapwallettxes" = Some [mode] →
  Args.GetBoolArg a "-zapwallettxes" false = true.
Proof.
  intros Hmode Ha.
  unfold Args.GetBoolArg, Args.IsArgNegated, Args.Find. rewrite Ha.
  rewrite bool_decide_eq_false_2 by done.
  by destruct Hmode as [-> | ->].
Qed.

(** C4, as amended.  With wallets enabled and -zapwallettxes on: with more
    than one wallet ParameterInteraction fails with one error, "<option> is
    only allowed with a single wallet file" (naming -salvagewallet when that
    is on too, -zapwallettxes otherwise); with exactly one wallet it leaves
    -rescan bound to 1 and -persistmempool bound to 0 unless the option had a
    binding, which is kept, and it succeeds exactly when neither of the two
    later rules (-sysperms; pruning with rescan) fails. *)
Theorem zap_interaction E w :
  Args.GetBoolArg (gArgs w) "-disablewallet" (DEFAULT_DISABLE_WALLET E)
    = false →
  Args.GetBoolArg (gArgs w) "-zapwallettxes" false = true →
  ((1 < length (Args.GetArgs (gArgs w) "-wallet"))%nat →
   ∃ w' evs,
     ParameterInteraction E w = (Ret false, w') ∧
     trace w' = trace w ++ evs ∧
     init_errors evs =
       [single_wallet_only
          (if Args.GetBoolArg (gArgs w) "-salvagewallet" false
           then "-salvagewallet" else "-zapwallettxes")]) ∧
  (length (Args.GetArgs (gArgs w) "-wallet") = 1%nat →
   ∃ r w' evs,
     ParameterInteraction E w = (Ret r, w') ∧
     trace w' = trace w ++ evs ∧
     gArgs w' !! "-rescan" = Some (default ["1"] (gArgs w !! "-rescan")) ∧
     gArgs w' !! "-persistmempool"
       = Some (default ["0"] (gArgs w !! "-persistmempool")) ∧
     (r = true ↔
      Args.GetBoolArg (gArgs w) "-sysperms" false = false ∧
      ¬ (Args.GetIntArg (gArgs w) "-prune" 0 ≠ 0 ∧
         Args.GetBoolArg (gArgs w') "-rescan" false = true)) ∧
     (r = true → init_errors evs = [])).
Proof.
  intros Hd Hzap.
  destruct (ParameterInteraction_closed_form E w Hd) as (evs & Hrun & Herr).
  split.
  - intros Hm. rewrite multiwallet_errors in Hrun, Herr
      by (by apply bool_decide_eq_true_2).
    rewrite Hzap in Hrun, Herr.
    eexists _, evs. split; [|split; [apply with_args_trace|]].
    + rewrite Hrun.
      by destruct (Args.GetBoolArg (gArgs w) "-salvagewallet" false).
    + rewrite Herr.
      by destruct (Args.GetBoolArg (gArgs w) "-salvagewallet" false).
  - intros Hone.
    assert (Hm : is_multiwallet_of (gArgs w) = false).
    { apply bool_decide_eq_false_2. lia. }
    destruct (zap_single_wallet E (gArgs w) Hm Hzap)
      as (Hrescan & Hpersist & Hother & Herrs).
    eexists _, _, evs. split; [exact Hrun|].
    split; [apply with_args_trace|]. cbn [gArgs with_args].
    split; [done|]. split; [done|]. split.
    + rewrite bool_decide_eq_true, Herrs, sysperms_errors_nil.
      rewrite (GetBoolArg_lookup (gArgs w) _ "-sysperms")
        by (apply Hother; not_a_soft_key).
      rewrite (GetIntArg_lookup (gArgs w) _ "-prune")
        by (apply Hother; not_a_soft_key).
      done.
    + rewrite bool_decide_eq_true. intros Hnil. by rewrite Herr.
Qed.

Lemma zap_interaction_witness :
  ∃ r w' evs,
    ParameterInteraction node_externals
      (world_of [("-wallet", ["a"]); ("-zapwallettxes", ["2"])] [] [])
    = (Ret r, w') ∧
    trace w' = [] ++ evs ∧
    gArgs w' !! "-rescan" = Some ["1"] ∧
    gArgs w' !! "-persistmempool" = Some ["0"] ∧
    (r = true ↔
     false = false ∧
     ¬ (0 ≠ 0 ∧ Args.GetBoolArg (gArgs w') "-rescan" false = true)) ∧
    (r = true → init_errors evs = []).
Proof.
  apply (zap_interaction node_externals
           (world_of [("-wallet", ["a"]); ("-zapwallettxes", ["2"])] [] [])).
  - vm_compute. reflexivity.
  - vm_compute. reflexivity.
  - vm_compute. reflexivity.
Defined.

(** C4, as stated, fails: with wallets disabled nothing is checked, so zap
    with two wallets is accepted. *)
Lemma zap_with_two_wallets_accepted_when_disabled :
  Args.GetBoolArg
    (gArgs (world_of [("-disablewallet", ["1"]); ("-zapwallettxes", ["2"]);
                      ("-wallet", ["a"; "b"])] [] []))
    "-zapwallettxes" false = true ∧
  length (Args.GetArgs
    (gArgs (world_of [("-disablewallet", ["1"]); ("-zapwallettxes", ["2"]);
                      ("-wallet", ["a"; "b"])] [] []))
    "-wallet") = 2%nat ∧
  ∃ w', ParameterInteraction node_externals
          (world_of [("-disablewallet", ["1"]); ("-zapwallettxes", ["2"]);
                     ("-wallet", ["a"; "b"])] [] [])
        = (Ret true, w') ∧
        init_errors (trace w') = [].
Proof.
  split; [vm_compute; reflexivity|]. split; [vm_compute; reflexivity|].
  eexists. split; vm_compute; reflexivity.
Qed.

Lemma soft_ext_zap_store is_multiwallet a :
  soft_ext a (zap_store is_multiwallet a).
Proof.
  unfold zap_store.
  destruct (Args.GetBoolArg a "-zapwallettxes" false);
    [|apply soft_ext_refl].
  assert (soft_ext a (soft a "-persistmempool" "0")) as Hp.
  { apply soft_ext_soft. unfold soft_keys. set_solver. }
  destruct is_multiwallet; [done|].
  eapply soft_ext_trans; [exact Hp|].
  apply soft_ext_soft. unfold soft_keys. set_solver.
Qed.

Lemma soft_ext_salvage_store is_multiwallet a :
  soft_ext a (salvage_store is_multiwallet a).
Proof.
  unfold salvage_store.
  destruct (Args.GetBoolArg a "-salvagewallet" false);
    [|apply soft_ext_zap_store].
  destruct is_multiwallet; [apply soft_ext_refl|].
  eapply soft_ext_trans; [|apply soft_ext_zap_store].
  apply soft_ext_soft. unfold soft_keys. set_solver.
Qed.

Lemma soft_ext_interaction_store E a : soft_ext a (interaction_store E a).
Proof.
  unfold interaction_store.
  eapply soft_ext_trans; [|apply soft_ext_salvage_store].
  unfold blocksonly_store.
  destruct (Args.GetBoolArg a "-blocksonly" (DEFAULT_BLOCKSONLY E));
    [|apply soft_ext_refl].
  apply soft_ext_soft. unfold soft_keys. set_solver.
Qed.

Lemma interaction_store_idle E (a : gmap string (list string)) :
  Args.GetBoolArg a "-blocksonly" (DEFAULT_BLOCKSONLY E) = false →
  Args.GetBoolArg a "-salvagewallet" false = false →
  Args.GetBoolArg a "-zapwallettxes" false = false →
  interaction_store E a = a.
Proof.
  intros Hb Hs Hz.
  unfold interaction_store, blocksonly_store, salvage_store, zap_store.
  by rewrite Hb, Hs, Hz.
Qed.

Lemma interaction_errors_at_most_one E a :
  (length (interaction_errors E a) ≤ 1)%nat.
Proof.
  unfold interaction_errors, salvage_errors, zap_errors, upgrade_errors,
    sysperms_errors.
  repeat match goal with
         | |- context [if ?b then _ else _] => destruct b
         end; cbn; lia.
Qed.

Lemma not_soft_key k :
  k ∉ soft_keys →
  "-walletbroadcast" ≠ k ∧ "-rescan" ≠ k ∧ "-persistmempool" ≠ k.
Proof.
  unfold soft_keys. rewrite !not_elem_of_cons.
  intros (H1 & H2 & H3 & _). split; [|split]; congruence.
Qed.

Lemma interaction_store_lookups E (a : gmap string (list string)) :
  interaction_store E a !! "-walletbroadcast"
  = (if Args.GetBoolArg a "-blocksonly" (DEFAULT_BLOCKSONLY E)
     then Some (default ["0"] (a !! "-walletbroadcast"))
     else a !! "-walletbroadcast") ∧
  interaction_store E a !! "-rescan"
  = (if negb (is_multiwallet_of a)
        && (Args.GetBoolArg a "-salvagewallet" false
            || Args.GetBoolArg a "-zapwallettxes" false)
     then Some (default ["1"] (a !! "-rescan"))
     else a !! "-rescan") ∧
  interaction_store E a !! "-persistmempool"
  = (if Args.GetBoolArg a "-zapwallettxes" false
        && negb (is_multiwallet_of a
                 && Args.GetBoolArg a "-salvagewallet" false)
     then Some (default ["0"] (a !! "-persistmempool"))
     else a !! "-persistmempool") ∧
  (∀ k, k ∉ soft_keys → interaction_store E a !! k = a !! k).
Proof.
  unfold interaction_store, salvage_store, zap_store.
  rewrite !(GetBoolArg_lookup a (blocksonly_store E a))
    by (by soft_lookups).
  rewrite (GetBoolArg_lookup a (soft _ "-rescan" "1") "-zapwallettxes")
    by (by soft_lookups).
  unfold blocksonly_store.
  destruct (Args.GetBoolArg a "-blocksonly" (DEFAULT_BLOCKSONLY E)),
           (is_multiwallet_of a),
           (Args.GetBoolArg a "-salvagewallet" false),
           (Args.GetBoolArg a "-zapwallettxes" false);
    cbn [andb orb negb];
    (split; [by soft_lookups|]);
    (split; [soft_lookups; by destruct (a !! "-rescan")|]);
    (split; [by soft_lookups|]);
    intros k (? & ? & ?)%not_soft_key; by soft_lookups.
Qed.

(** C5, as amended.  ParameterInteraction always returns, and touches
    nothing but the option store and the reports.  The store changes by
    soft-sets only, and the soft-sets made before a rule fails are in the
    store that is left with the error: with wallets enabled, whatever the
    result, -walletbroadcast is bound to 0 when -blocksonly is on, -rescan
    to 1 when there is at most one wallet and salvage or zap is on, and
    -persistmempool to 0 when zap is on unless salvage with several wallets
    was rejected first, each only if it had no binding, which is kept
    otherwise.  No other option changes.  The store is left as it was when
    wallets are disabled, and when none of -blocksonly, -salvagewallet and
    -zapwallettxes is on.  The result is false exactly when an error was
    reported, and at most one is. *)
Theorem ParameterInteraction_soft_sets_only E w :
  ∃ r w' evs,
    ParameterInteraction E w = (Ret r, w') ∧
    w' = with_args (gArgs w') evs w ∧
    soft_ext (gArgs w) (gArgs w') ∧
    (length (init_errors evs) ≤ 1)%nat ∧
    (r = false ↔ init_errors evs ≠ []) ∧
    (Args.GetBoolArg (gArgs w) "-disablewallet" (DEFAULT_DISABLE_WALLET E)
       = true
     ∨ (Args.GetBoolArg (gArgs w) "-blocksonly" (DEFAULT_BLOCKSONLY E) = false
        ∧ Args.GetBoolArg (gArgs w) "-salvagewallet" false = false
        ∧ Args.GetBoolArg (gArgs w) "-zapwallettxes" false = false) →
     gArgs w' = gArgs w) ∧
    (Args.GetBoolArg (gArgs w) "-disablewallet" (DEFAULT_DISABLE_WALLET E)
       = false →
     gArgs w' !! "-walletbroadcast"
     = (if Args.GetBoolArg (gArgs w) "-blocksonly" (DEFAULT_BLOCKSONLY E)
        then Some (default ["0"] (gArgs w !! "-walletbroadcast"))
        else gArgs w !! "-walletbroadcast") ∧
     gArgs w' !! "-rescan"
     = (if negb (is_multiwallet_of (gArgs w))
           && (Args.GetBoolArg (gArgs w) "-salvagewallet" false
               || Args.GetBoolArg (gArgs w) "-zapwallettxes" false)
        then Some (default ["1"] (gArgs w !! "-rescan"))
        else gArgs w !! "-rescan") ∧
     gArgs w' !! "-persistmempool"
     = (if Args.GetBoolArg (gArgs w) "-zapwallettxes" false
           && negb (is_multiwallet_of (gArgs w)
                    && Args.GetBoolArg (gArgs w) "-salvagewallet" false)
        then Some (default ["0"] (gArgs w !! "-persistmempool"))
        else gArgs w !! "-persistmempool") ∧
     (∀ k, k ∉ soft_keys → gArgs w' !! k = gArgs w !! k)).
Proof.
  destruct (Args.GetBoolArg (gArgs w) "-disablewallet"
              (DEFAULT_DISABLE_WALLET E)) eqn:Hd.
  - destruct (ParameterInteraction_disabled E w Hd) as (evs & Hrun & Herr).
    exists true, (emits evs w), evs. rewrite Herr.
    split; [done|]. split; [done|]. split; [apply soft_ext_refl|].
    split; [cbn; lia|]. split; [by split|]. split; [done|]. done.
  - destruct (ParameterInteraction_closed_form E w Hd) as (evs & Hrun & Herr).
    eexists _, _, evs. split; [exact Hrun|]. cbn [gArgs with_args].
    split; [done|]. split; [apply soft_ext_interaction_store|].
    rewrite Herr.
    pose proof (interaction_errors_at_most_one E (gArgs w)) as Hlen.
    pose proof (interaction_store_lookups E (gArgs w)) as Hstore.
    destruct (interaction_errors E (gArgs w)) as [|e [|e' l]];
      [| |cbn in Hlen; lia].
    + rewrite bool_decide_eq_true_2 by done.
      split; [cbn; lia|]. split; [by split|]. split; [|done].
      intros [|(Hb & Hs & Hz)]; [done|]. by apply interaction_store_idle.
    + rewrite bool_decide_eq_false_2 by done.
      split; [cbn; lia|]. split; [by split|]. split; [|done].
      intros [|(Hb & Hs & Hz)]; [done|]. by apply interaction_store_idle.
Qed.

(** C5, as stated, fails: -blocksonly soft-sets -walletbroadcast before
    -sysperms is rejected, and the binding stays. *)
Lemma failed_ParameterInteraction_changes_store :
  ∃ w', ParameterInteraction node_externals
          (world_of [("-blocksonly", ["1"]); ("-sysperms", ["1"])] [] [])
        = (Ret false, w') ∧
        gArgs (world_of [("-blocksonly", ["1"]); ("-sysperms", ["1"])] [] [])
          !! "-walletbroadcast" = None ∧
        gArgs w' !! "-walletbroadcast" = Some ["0"].
Proof.
  eexists. split; [vm_compute; reflexivity|].
  split; vm_compute; reflexivity.
Qed.

(** ** LoadWallets *)

Section Load.

Context (E : Externals).

Lemma with_registry_with_registry l1 l2 e1 e2 w :
  with_registry l2 e2 (with_registry l1 e1 w)
  = with_registry l2 (e1 ++ e2) w.
Proof. unfold with_registry. cbn. by rewrite app_assoc. Qed.

Lemma with_registry_nil w : with_registry (vpwallets w) [] w = w.
Proof. destruct w. unfold with_registry. cbn. by rewrite app_nil_r. Qed.

(** One turn of the loop on a wallet that can be constructed. *)
Lemma LoadWallets_cons_constructed walletFile rest wallet w :
  CWallet_CreateWalletFromFile E (disk w)
    (WalletLocation_GetPath E (gArgs w) (disk w) walletFile) = Some wallet →
  LoadWallets E (walletFile :: rest) w
  = LoadWallets E rest
      (with_registry (registry_add wallet (vpwallets w))
         [EvCreateWalletFromFile
            (WalletLocation_GetPath E (gArgs w) (disk w) walletFile);
          EvAddWallet wallet] w).
Proof.
  intros Hc. cbn [LoadWallets].
  unfold bind, WalletLocation, CreateWalletFromFile, AddWallet, emit, bind.
  cbn. rewrite Hc. unfold with_registry. cbn. by rewrite <- app_assoc.
Qed.

(** One turn of the loop on a wallet that cannot. *)
Lemma LoadWallets_cons_failed walletFile rest w :
  CWallet_CreateWalletFromFile E (disk w)
    (WalletLocation_GetPath E (gArgs w) (disk w) walletFile) = None →
  LoadWallets E (walletFile :: rest) w
  = (Ret false,
     with_registry (vpwallets w)
       [EvCreateWalletFromFile
          (WalletLocation_GetPath E (gArgs w) (disk w) walletFile)] w).
Proof.
  intros Hc. cbn [LoadWallets].
  unfold bind, WalletLocation, CreateWalletFromFile, emit, bind, ret.
  cbn. by rewrite Hc.
Qed.

Lemma LoadWallets_constructed_prefix pre hs rest w :
  Forall2 (λ file h,
    CWallet_CreateWalletFromFile E (disk w)
      (WalletLocation_GetPath E (gArgs w) (disk w) file) = Some h) pre hs →
  LoadWallets E (pre ++ rest) w
  = LoadWallets E rest
      (with_registry (registry_add_all (vpwallets w) hs)
         (loaded_events
            (zip (map (WalletLocation_GetPath E (gArgs w) (disk w)) pre) hs))
         w).
Proof.
  intros Hpre. revert w Hpre.
  cut (∀ a d, Forall2 (λ file h,
         CWallet_CreateWalletFromFile E d (WalletLocation_GetPath E a d file)
         = Some h) pre hs →
       ∀ w, gArgs w = a → disk w = d →
       LoadWallets E (pre ++ rest) w
       = LoadWallets E rest
           (with_registry (registry_add_all (vpwallets w) hs)
              (loaded_events (zip (map (WalletLocation_GetPath E a d) pre) hs))
              w)).
  { intros H w Hpre. by apply (H (gArgs w) (disk w)). }
  intros a d Hpre. induction Hpre as [|file h pre hs Hc _ IH];
    intros w Ha Hd.
  - cbn. by rewrite with_registry_nil.
  - cbn [app]. rewrite (LoadWallets_cons_constructed file _ h)
      by (by rewrite Ha, Hd).
    rewrite IH by done. rewrite with_registry_with_registry.
    by rewrite Ha, Hd.
Qed.

Lemma registry_add_all_fresh l hs :
  NoDup (l ++ hs) → registry_add_all l hs = l ++ hs.
Proof.
  revert l. induction hs as [|h hs IH]; intros l Hnd; cbn.
  - by rewrite app_nil_r.
  - unfold registry_add_all in *. cbn. unfold registry_add at 2.
    rewrite decide_False.
    + rewrite IH; rewrite <- app_assoc; done.
    + apply NoDup_app in Hnd as (_ & Hdisj & _).
      intros Hin. apply (Hdisj h Hin). by left.
Qed.

Lemma elem_of_registry_add h x l :
  h ∈ registry_add x l ↔ h ∈ l ∨ h = x.
Proof.
  unfold registry_add. case_decide as Hx.
  - split; [by left|]. by intros [?| ->].
  - rewrite elem_of_app, list_elem_of_singleton. done.
Qed.

Lemma elem_of_registry_add_all h l hs :
  h ∈ registry_add_all l hs ↔ h ∈ l ∨ h ∈ hs.
Proof.
  revert l. induction hs as [|x hs IH]; intros l; cbn.
  - split; [by left|]. intros [|Hn]; [done|]. by apply elem_of_nil in Hn.
  - unfold registry_add_all in *. cbn. rewrite IH, elem_of_registry_add.
    rewrite elem_of_cons. tauto.
Qed.

End Load.

(** C1. When the wallets before the k-th are all constructed (with handles
    [hs]) and the k-th is not, LoadWallets returns false; the only calls made
    are, for each of the first k-1 wallets in order, its construction followed
    at once by the registration of its handle, then the construction of the
    k-th: none of the wallets after it is touched.  The registry holds what
    it held plus the handles [hs]; from an empty registry it is exactly [hs]. *)
Theorem LoadWallets_fails_fast E w pre f post hs :
  Forall2 (λ file h,
    CWallet_CreateWalletFromFile E (disk w)
      (WalletLocation_GetPath E (gArgs w) (disk w) file) = Some h) pre hs →
  CWallet_CreateWalletFromFile E (disk w)
    (WalletLocation_GetPath E (gArgs w) (disk w) f) = None →
  ∃ w',
    LoadWallets E (pre ++ f :: post) w = (Ret false, w') ∧
    w' = with_registry (registry_add_all (vpwallets w) hs)
           (loaded_events
              (zip (map (WalletLocation_GetPath E (gArgs w) (disk w)) pre) hs)
            ++ [EvCreateWalletFromFile
                  (WalletLocation_GetPath E (gArgs w) (disk w) f)]) w ∧
    (∀ h, h ∈ vpwallets w' ↔ h ∈ vpwallets w ∨ h ∈ hs) ∧
    (vpwallets w = [] → NoDup hs → vpwallets w' = hs).
Proof.
  intros Hpre Hf. eexists. split; [|split; [reflexivity|]].
  - rewrite (LoadWallets_constructed_prefix E pre hs) by done.
    rewrite LoadWallets_cons_failed by done.
    by rewrite with_registry_with_registry.
  - cbn [vpwallets with_registry]. split.
    + intros h. apply elem_of_registry_add_all.
    + intros -> Hnd. by apply registry_add_all_fresh.
Qed.

Lemma LoadWallets_fails_fast_witness :
  ∃ w',
    LoadWallets node_externals (["a"] ++ "bad" :: ["ccc"])
      (world_of [] [("/data/bad", Fs.RegularFile "corrupt")] [])
    = (Ret false, w') ∧
    w' = with_registry [7%nat]
           [EvCreateWalletFromFile "/data/a"; EvAddWallet 7%nat;
            EvCreateWalletFromFile "/data/bad"]
           (world_of [] [("/data/bad", Fs.RegularFile "corrupt")] []) ∧
    (∀ h, h ∈ vpwallets w' ↔ h ∈ @nil Handle ∨ h ∈ [7%nat]) ∧
    (@nil Handle = [] → NoDup [7%nat] → vpwallets w' = [7%nat]).
Proof.
  apply (LoadWallets_fails_fast node_externals
           (world_of [] [("/data/bad", Fs.RegularFile "corrupt")] [])
           ["a"] "bad" ["ccc"] [7%nat]).
  - repeat constructor.
  - vm_compute. reflexivity.
Defined.

(** ** The registry *)

(** The three calls that touch the registry or release a handle do to the
    world what [registry_step] does for the event they leave. *)
Lemma AddWallet_step wallet w :
  ∃ r w', AddWallet wallet w = (Ret r, w') ∧
          trace w' = trace w ++ [EvAddWallet wallet] ∧
          (vpwallets w', released w')
          = registry_step (vpwallets w, released w) (EvAddWallet wallet).
Proof. by eexists _, _. Qed.

Lemma RemoveWallet_step wallet w :
  ∃ r w', RemoveWallet wallet w = (Ret r, w') ∧
          trace w' = trace w ++ [EvRemoveWallet wallet] ∧
          (vpwallets w', released w')
          = registry_step (vpwallets w, released w) (EvRemoveWallet wallet).
Proof. by eexists _, _. Qed.

Lemma UnloadWallet_step wallet w :
  ∃ w', UnloadWallet wallet w = (Ret tt, w') ∧
        trace w' = trace w ++ [EvUnloadWallet wallet] ∧
        (vpwallets w', released w')
        = registry_step (vpwallets w, released w) (EvUnloadWallet wallet).
Proof. by eexists. Qed.

Lemma erase_first_subseteq h l x : x ∈ erase_first h l → x ∈ l.
Proof.
  induction l as [|y l IH]; cbn; [done|].
  case_decide; rewrite !elem_of_cons; [by right|].
  intros [->|Hx]; [by left|]. right. by apply IH.
Qed.



Lemma erase_first_NoDup h l : NoDup l → NoDup (erase_first h l).
Proof.
  induction 1 as [|x l Hx Hnd IH]; cbn; [constructor|].
  case_decide; [done|]. constructor; [|done].
  intros Hin. by apply erase_first_subseteq in Hin.
Qed.

Lemma erase_first_Permutation h l : h ∈ l → l ≡ₚ h :: erase_first h l.
Proof.
  induction l as [|y l IH]; [by intros ?%elem_of_nil|].
  rewrite elem_of_cons. cbn. case_decide as Hy.
  - by subst.
  - intros [->|Hin]; [done|]. rewrite (IH Hin) at 1. apply Permutation_swap.
Qed.

Lemma erase_first_of_Permutation h l rest :
  l ≡ₚ h :: rest → erase_first h l ≡ₚ rest.
Proof.
  intros Hp. apply (Permutation_cons_inv (a := h)).
  rewrite <- erase_first_Permutation; [done|].
  rewrite Hp. by left.
Qed.

(** Erasing, one by one, the handles a list holds leaves nothing. *)
Lemma erase_all_Permutation l taken : l ≡ₚ taken → erase_all l taken = [].
Proof.
  revert l. induction taken as [|h taken IH]; intros l Hp.
  - by apply Permutation_nil_r in Hp.
  - unfold erase_all in *. cbn. apply IH.
    by apply erase_first_of_Permutation.
Qed.

Lemma registry_after_unload_events l rel taken :
  registry_after (l, rel) (unload_events taken)
  = (erase_all l taken, rel ++ taken).
Proof.
  revert l rel. induction taken as [|h taken IH]; intros l rel.
  - cbn. by rewrite app_nil_r.
  - unfold registry_after, unload_events, erase_all in *. cbn.
    rewrite IH. by rewrite <- app_assoc.
Qed.

(** While the handles still to take are distinct and are what the registry
    holds, no point of the trace has a handle both registered and released. *)
Lemma unload_never_both taken l rel n :
  NoDup taken → l ≡ₚ taken → (∀ h, h ∈ l → h ∉ rel) →
  ∀ h, h ∈ (registry_after (l, rel) (take n (unload_events taken))).1 →
       h ∉ (registry_after (l, rel) (take n (unload_events taken))).2.
Proof.
  revert l rel n. induction taken as [|x taken IH]; intros l rel n Hnd Hp Hd.
  - unfold unload_events. cbn [flat_map]. rewrite take_nil. exact Hd.
  - destruct n as [|[|n]]; cbn.
    + exact Hd.
    + intros h Hh. apply Hd. by apply erase_first_subseteq in Hh.
    + apply NoDup_cons in Hnd as [Hx Hnd].
      apply (IH (erase_first x l) (rel ++ [x]) n Hnd).
      * by apply erase_first_of_Permutation.
      * intros h Hh. rewrite elem_of_app, list_elem_of_singleton.
        intros [Hrel| ->].
        -- by apply (Hd h); [apply erase_first_subseteq in Hh|].
        -- apply Hx. by rewrite <- (erase_first_of_Permutation x l taken).
Qed.

Lemma with_wallets_with_wallets l1 r1 e1 l2 r2 e2 w :
  with_wallets l2 r2 e2 (with_wallets l1 r1 e1 w)
  = with_wallets l2 r2 (e1 ++ e2) w.
Proof. unfold with_wallets. cbn. by rewrite app_assoc. Qed.

(** The loop of UnloadWallets over the handles it takes. *)
Lemma UnloadWallets_loop taken w :
  for_each taken (λ wallet, RemoveWallet wallet then! UnloadWallet wallet) w
  = (Ret tt,
     with_wallets (erase_all (vpwallets w) taken) (released w ++ taken)
       (unload_events taken) w).
Proof.
  revert w. induction taken as [|h taken IH]; intros w.
  - destruct w. unfold with_wallets. cbn. by rewrite !app_nil_r.
  - cbn [for_each]. unfold bind at 1.
    replace ((RemoveWallet h then! UnloadWallet h) w)
      with (@Ret unit tt,
            with_wallets (erase_first h (vpwallets w)) (released w ++ [h])
              [EvRemoveWallet h; EvUnloadWallet h] w).
    + rewrite IH. rewrite with_wallets_with_wallets.
      cbn [vpwallets released with_wallets]. by rewrite <- app_assoc.
    + unfold with_wallets, bind, RemoveWallet, UnloadWallet, emit, bind.
      cbn. by rewrite <- app_assoc.
Qed.

(** C6. From any registry contents UnloadWallets returns with the registry
    empty.  It takes the handles from the back of the registry; for each one
    the trace shows its removal from the registry and then, next, its
    release, and the events of the trace are what changed the registry.
    When the registry held no handle twice and none of its handles was
    already released, then at no point of the trace is a handle both in the
    registry and released. *)
Theorem UnloadWallets_drains w :
  ∃ w',
    UnloadWallets w = (Ret tt, w') ∧
    vpwallets w' = [] ∧
    released w' = released w ++ rev (vpwallets w) ∧
    trace w' = trace w ++ unload_events (rev (vpwallets w)) ∧
    registry_after (vpwallets w, released w)
      (unload_events (rev (vpwallets w)))
    = (vpwallets w', released w') ∧
    (NoDup (vpwallets w) → (∀ h, h ∈ vpwallets w → h ∉ released w) →
     ∀ n h,
       h ∈ (registry_after (vpwallets w, released w)
              (take n (unload_events (rev (vpwallets w))))).1 →
       h ∉ (registry_after (vpwallets w, released w)
              (take n (unload_events (rev (vpwallets w))))).2).
Proof.
  eexists. split.
  { unfold UnloadWallets, bind, GetWallets. apply UnloadWallets_loop. }
  cbn [vpwallets released trace with_wallets].
  assert (Hrev : vpwallets w ≡ₚ rev (vpwallets w)) by apply Permutation_rev.
  split; [by apply erase_all_Permutation|].
  split; [done|]. split; [done|]. split.
  - rewrite registry_after_unload_events.
    by rewrite erase_all_Permutation.
  - intros Hnd Hd n. apply unload_never_both; [|done..].
    by rewrite <- Hrev.
Qed.

(** ** Construct *)

Section ConstructFacts.

Context (E : Externals).

(** Lines 189-204 in closed form. *)
Lemma Construct_legacy_wallet_closed_form w :
  Construct_legacy_wallet E w =
  if legacy_copy_due E w then
    match legacy_copy_result E w with
    | Some d => (Ret tt, set_disk d (emits (legacy_copy_events E w) w))
    | None =>
        (Throw, set_disk (disk_at_copy E w) (emits (legacy_copy_events E w) w))
    end
  else (Ret tt, w).
Proof.
  unfold Construct_legacy_wallet, legacy_copy_due, first_time_load,
    legacy_copy_events, legacy_copy_result, disk_at_copy,
    legacy_wallet, default_wallet_1, default_wallet_2.
  unfold bind, mand, bind, Exists, WalletLocation, ret. cbn.
  destruct (Fs.exists_ (disk w) (Fs.join (GetDataDir E (gArgs w)) "peers.dat"));
    cbn; [done|].
  destruct (Fs.exists_ (disk w) (WalletLocation_GetPath E (gArgs w) (disk w)
              (Fs.join (GetDataDir E (gArgs w)) "wallet.dat")));
    cbn; [done|].
  destruct (Fs.exists_ (disk w) (WalletLocation_GetPath E (gArgs w) (disk w)
              (Fs.join (GetWalletDir E (gArgs w) (disk w)) "wallet.dat")));
    cbn; [done|].
  destruct (Fs.exists_ (disk w) (WalletLocation_GetPath E (gArgs w) (disk w)
              (Fs.join (GetDefaultDataDirLegacy E) "wallet.dat")));
    cbn; [|done].
  unfold copy_file, LogPrintf, emit, bind. cbn.
  destruct (copy_file_error E _ _ _);
    [unfold emits, with_args, set_disk, set_trace; cbn;
     by rewrite <- app_assoc|].
  destruct (Fs.copy_file_fail_if_exists _ _ _);
    unfold emits, with_args, set_disk, set_trace; cbn;
    by rewrite <- app_assoc.
Qed.

(** The copy never replaces anything: what the disk held, it holds. *)
Lemma copy_file_keeps (d d' : gmap string Fs.node) from to p n :
  Fs.copy_file_fail_if_exists d from to = Some d' →
  d !! p = Some n → d' !! p = Some n.
Proof.
  unfold Fs.copy_file_fail_if_exists, Fs.exists_.
  destruct (d !! from) as [[c|]|]; [|done..].
  case_bool_decide as Hto; [done|]. intros [= <-] Hp.
  rewrite lookup_insert_ne; [done|].
  intros ->. apply Hto. eauto.
Qed.

Lemma copy_file_fails_if_exists (d : gmap string Fs.node) from to :
  Fs.exists_ d to = true → Fs.copy_file_fail_if_exists d from to = None.
Proof.
  intros Hto. unfold Fs.copy_file_fail_if_exists. rewrite Hto.
  by destruct (d !! from) as [[c|]|].
Qed.

(** Construct with wallets enabled, once the legacy step has returned in
    world [w1]. *)
Lemma Construct_enabled w :
  Args.GetBoolArg (gArgs w) "-disablewallet" (DEFAULT_DISABLE_WALLET E)
    = false →
  Construct E w =
  match Construct_legacy_wallet E w with
  | (Ret _, w1) =>
      (Ret tt,
       set_chain_clients (chain_clients w1 ++ [client_wallets (gArgs w1)])
         (set_gArgs (soft (gArgs w1) "-wallet" "") w1))
  | (Throw, w1) => (Throw, w1)
  end.
Proof.
  intros Hd. unfold Construct, bind at 1, GetBoolArg. rewrite Hd.
  unfold bind at 1. destruct (Construct_legacy_wallet E w) as [[[]|] w1];
    [|done].
  unfold bind, SoftSetArg, GetArgs, emplace_wallet_client, client_wallets,
    soft, Args.SoftSetArg.
  destruct (Args.IsArgSet (gArgs w1) "-wallet") eqn:Hset; cbn; [done|].
  unfold Args.GetArgs, Args.IsArgNegated, Args.ForceSetArg.
  rewrite lookup_insert_eq. by rewrite bool_decide_eq_false_2.
Qed.

Lemma Construct_disabled w :
  Args.GetBoolArg (gArgs w) "-disablewallet" (DEFAULT_DISABLE_WALLET E)
    = true →
  Construct E w = (Ret tt, emits [EvLogPrintf ("Wallet disabled!" +:+ nl)] w).
Proof.
  intros Hd. unfold Construct, bind, GetBoolArg. by rewrite Hd.
Qed.

End ConstructFacts.

Lemma legacy_copy_due_iff E w :
  legacy_copy_due E w = true ↔
  Fs.exists_ (disk w) (Fs.join (GetDataDir E (gArgs w)) "peers.dat") = false ∧
  Fs.exists_ (disk w) (default_wallet_1 E w) = false ∧
  Fs.exists_ (disk w) (default_wallet_2 E w) = false ∧
  Fs.exists_ (disk w) (legacy_wallet E w) = true.
Proof.
  unfold legacy_copy_due, first_time_load.
  rewrite !andb_true_iff, !negb_true_iff. tauto.
Qed.

Lemma legacy_copy_result_Some E w d' :
  legacy_copy_result E w = Some d' →
  Fs.exists_ (disk_at_copy E w) (default_wallet_2 E w) = false ∧
  (∀ p n, disk_at_copy E w !! p = Some n → d' !! p = Some n) ∧
  ∃ c, disk_at_copy E w !! legacy_wallet E w = Some (Fs.RegularFile c) ∧
       d' !! default_wallet_2 E w = Some (Fs.RegularFile c).
Proof.
  unfold legacy_copy_result. destruct (copy_file_error E _ _ _); [done|].
  intros Hcopy. split; [|split].
  - destruct (Fs.exists_ (disk_at_copy E w) (default_wallet_2 E w)) eqn:Hex;
      [|done].
    by rewrite copy_file_fails_if_exists in Hcopy.
  - intros p n. exact (copy_file_keeps _ _ _ _ p n Hcopy).
  - unfold Fs.copy_file_fail_if_exists in Hcopy.
    destruct (disk_at_copy E w !! legacy_wallet E w) as [[c|]|]; [|done..].
    destruct (Fs.exists_ _ _); [done|]. injection Hcopy as <-.
    exists c. split; [done|]. apply lookup_insert_eq.
Qed.

Lemma legacy_copy_result_None E w :
  legacy_copy_result E w = None →
  ∀ c, disk_at_copy E w !! legacy_wallet E w = Some (Fs.RegularFile c) →
       Fs.exists_ (disk_at_copy E w) (default_wallet_2 E w) = false →
       copy_file_error E (disk_at_copy E w)
         (legacy_wallet E w) (default_wallet_2 E w) = true.
Proof.
  unfold legacy_copy_result, Fs.copy_file_fail_if_exists.
  intros Hcopy c Hc Hex. destruct (copy_file_error E _ _ _); [done|].
  by rewrite Hc, Hex in Hcopy.
Qed.

(** C7, as amended.  Construct calls the copy of the legacy wallet exactly
    when wallets are enabled, peers.dat is absent from the data directory,
    neither default wallet location exists and the legacy wallet exists.  It
    copies nothing else, and the copy goes from the legacy wallet to the
    default location of the wallet directory.  The copy does not overwrite:
    if the destination has appeared by the time the copy is made, Construct
    throws and the disk is as the copy found it; whatever the disk held at
    that time it holds after Construct; and a regular legacy file arrives
    at a destination that is still absent, unless the copy fails for a
    reason of its own.  When the copy is not called, Construct leaves the
    disk alone. *)
Theorem legacy_wallet_copy E w :
  ∃ o w' evs,
    Construct E w = (o, w') ∧
    trace w' = trace w ++ evs ∧
    (EvCopyFile (legacy_wallet E w) (default_wallet_2 E w) ∈ evs ↔
     Args.GetBoolArg (gArgs w) "-disablewallet" (DEFAULT_DISABLE_WALLET E)
       = false ∧
     Fs.exists_ (disk w) (Fs.join (GetDataDir E (gArgs w)) "peers.dat")
       = false ∧
     Fs.exists_ (disk w) (default_wallet_1 E w) = false ∧
     Fs.exists_ (disk w) (default_wallet_2 E w) = false ∧
     Fs.exists_ (disk w) (legacy_wallet E w) = true) ∧
    (∀ from to, EvCopyFile from to ∈ evs →
                from = legacy_wallet E w ∧ to = default_wallet_2 E w) ∧
    (EvCopyFile (legacy_wallet E w) (default_wallet_2 E w) ∈ evs →
     (Fs.exists_ (disk_at_copy E w) (default_wallet_2 E w) = true →
      o = Throw ∧ disk w' = disk_at_copy E w) ∧
     (∀ p n, disk_at_copy E w !! p = Some n → disk w' !! p = Some n) ∧
     (∀ c, disk_at_copy E w !! legacy_wallet E w = Some (Fs.RegularFile c) →
           Fs.exists_ (disk_at_copy E w) (default_wallet_2 E w) = false →
           copy_file_error E (disk_at_copy E w)
             (legacy_wallet E w) (default_wallet_2 E w) = false →
           o = Ret tt ∧
           disk w' !! default_wallet_2 E w = Some (Fs.RegularFile c))) ∧
    (EvCopyFile (legacy_wallet E w) (default_wallet_2 E w) ∉ evs →
     disk w' = disk w).
Proof.
  destruct (Args.GetBoolArg (gArgs w) "-disablewallet"
              (DEFAULT_DISABLE_WALLET E)) eqn:Hd.
  - rewrite (Construct_disabled E w Hd).
    eexists _, _, _. split; [done|]. split; [done|].
    split; [|split; [|split]].
    + rewrite list_elem_of_singleton. split; [done|]. by intros [? _].
    + by intros from to ?%list_elem_of_singleton.
    + by intros ?%list_elem_of_singleton.
    + done.
  - rewrite (Construct_enabled E w Hd), Construct_legacy_wallet_closed_form.
    pose proof (legacy_copy_due_iff E w) as Hdue.
    destruct (legacy_copy_due E w).
    + destruct Hdue as [Hdue _]. specialize (Hdue eq_refl).
      assert (Hin : EvCopyFile (legacy_wallet E w) (default_wallet_2 E w)
                    ∈ legacy_copy_events E w).
      { unfold legacy_copy_events. apply elem_of_cons. right. by left. }
      assert (Honly : ∀ from to,
                EvCopyFile from to ∈ legacy_copy_events E w →
                from = legacy_wallet E w ∧ to = default_wallet_2 E w).
      { unfold legacy_copy_events. intros from to Hc.
        apply elem_of_cons in Hc as [Hc|Hc]; [done|].
        apply list_elem_of_singleton in Hc. by injection Hc as -> ->. }
      destruct (legacy_copy_result E w) as [d'|] eqn:Hcopy.
      * destruct (legacy_copy_result_Some E w d' Hcopy)
          as (Hex & Hkeep & c & Hc & Hc').
        eexists _, _, (legacy_copy_events E w). split; [done|].
        split; [done|]. split; [by split|]. split; [done|].
        cbn [disk set_chain_clients set_gArgs set_disk].
        split; [|done]. intros _. split; [by rewrite Hex|].
        split; [done|]. intros c0 Hc0 _ _. split; [done|]. congruence.
      * eexists _, _, (legacy_copy_events E w). split; [done|].
        split; [done|]. split; [by split|]. split; [done|].
        cbn [disk set_disk emits with_args].
        split; [|done]. intros _. split; [done|]. split; [done|].
        intros c Hc Hex Herr.
        by rewrite (legacy_copy_result_None E w Hcopy c Hc Hex) in Herr.
    + eexists _, _, []. split; [done|].
      cbn [trace set_chain_clients set_gArgs disk].
      split; [by rewrite app_nil_r|].
      split; [|split; [|split]].
      * split; [by intros ?%elem_of_nil|].
        intros (_ & Hcond). by apply Hdue in Hcond.
      * by intros from to ?%elem_of_nil.
      * by intros ?%elem_of_nil.
      * done.
Qed.

(** C7, as stated, fails: with wallets disabled Construct returns before it
    looks at the disk, and the legacy wallet is not copied on a first start
    that has no wallet of the new layout. *)
Lemma legacy_wallet_not_copied_when_disabled :
  Fs.exists_
    (disk (world_of [("-disablewallet", ["1"])]
             [("/legacy/wallet.dat", Fs.RegularFile "keys")] []))
    "/data/peers.dat" = false ∧
  legacy_copy_due node_externals
    (world_of [("-disablewallet", ["1"])]
       [("/legacy/wallet.dat", Fs.RegularFile "keys")] []) = true ∧
  ∃ w',
    Construct node_externals
      (world_of [("-disablewallet", ["1"])]
         [("/legacy/wallet.dat", Fs.RegularFile "keys")] [])
    = (Ret tt, w') ∧
    trace w' = [EvLogPrintf ("Wallet disabled!" +:+ nl)] ∧
    disk w' !! "/data/wallet.dat" = None.
Proof.
  split; [vm_compute; reflexivity|]. split; [vm_compute; reflexivity|].
  eexists. split; [vm_compute; reflexivity|].
  split; vm_compute; reflexivity.
Qed.

(** The copy on a first start, run on two disks that look the same to
    the checks of Construct.  Left alone, the legacy wallet arrives at the
    default location and Construct goes on to create the wallet client.
    When another process gets a wallet to that location first, Construct
    throws, that wallet is still there and no wallet client is created. *)
Lemma legacy_copy_on_a_first_start :
  (∃ w',
     Construct node_externals
       (world_of [] [("/legacy/wallet.dat", Fs.RegularFile "keys")] [])
     = (Ret tt, w') ∧
     EvCopyFile "/legacy/wallet.dat" "/data/wallet.dat" ∈ trace w' ∧
     disk w' !! "/data/wallet.dat" = Some (Fs.RegularFile "keys") ∧
     chain_clients w' = [[""]]) ∧
  (∃ w',
     Construct racing_externals
       (world_of [] [("/legacy/wallet.dat", Fs.RegularFile "keys")] [])
     = (Throw, w') ∧
     EvCopyFile "/legacy/wallet.dat" "/data/wallet.dat" ∈ trace w' ∧
     disk w' !! "/data/wallet.dat" = Some (Fs.RegularFile "theirs") ∧
     chain_clients w' = []).
Proof.
  split; eexists; (split; [vm_compute; reflexivity|]);
    (split; [|split; vm_compute; reflexivity]).
  - vm_compute. apply elem_of_cons. right. apply elem_of_cons. by left.
  - vm_compute. apply elem_of_cons. right. apply elem_of_cons. by left.
Qed.

Lemma soft_set (a : gmap string (list string)) k v :
  Args.IsArgSet a k = true → soft a k v = a.
Proof. intros Hset. unfold soft, Args.SoftSetArg. by rewrite Hset. Qed.

Lemma client_wallets_nil (a : gmap string (list string)) :
  client_wallets a = [] ↔ a !! "-wallet" = Some [].
Proof.
  unfold client_wallets, Args.GetArgs, Args.IsArgNegated.
  rewrite IsArgSet_lookup.
  destruct (a !! "-wallet") as [[|v l]|] eqn:Hw.
  - rewrite !bool_decide_eq_true_2 by eauto. done.
  - rewrite bool_decide_eq_true_2 by eauto.
    rewrite bool_decide_eq_false_2 by done. done.
  - rewrite bool_decide_eq_false_2 by (by intros [? ?]). done.
Qed.

(** C10, as amended.  When wallets are enabled and Construct returns, it
    has created one wallet client.  If -wallet had no binding, Construct
    soft-set it to the empty string and the client gets that single default
    wallet; if it had one, the store is unchanged and the client gets the
    configured list as it is.  The list handed over is empty exactly when
    -wallet is bound to no value at all (the option given in negated form);
    in every other case it is not empty. *)
Theorem Construct_wallet_client E w w' :
  Args.GetBoolArg (gArgs w) "-disablewallet" (DEFAULT_DISABLE_WALLET E)
    = false →
  Construct E w = (Ret tt, w') →
  chain_clients w' = chain_clients w ++ [client_wallets (gArgs w)] ∧
  gArgs w' = soft (gArgs w) "-wallet" "" ∧
  (Args.IsArgSet (gArgs w) "-wallet" = false →
   client_wallets (gArgs w) = [""] ∧ gArgs w' !! "-wallet" = Some [""]) ∧
  (Args.IsArgSet (gArgs w) "-wallet" = true →
   client_wallets (gArgs w) = Args.GetArgs (gArgs w) "-wallet" ∧
   gArgs w' = gArgs w) ∧
  (client_wallets (gArgs w) = [] ↔ gArgs w !! "-wallet" = Some []).
Proof.
  intros Hd. rewrite (Construct_enabled E w Hd).
  rewrite Construct_legacy_wallet_closed_form.
  intros Hrun.
  assert (Hw' : chain_clients w'
                = chain_clients w ++ [client_wallets (gArgs w)] ∧
                gArgs w' = soft (gArgs w) "-wallet" "").
  { destruct (legacy_copy_due E w).
    - destruct (legacy_copy_result E w); [|done].
      by injection Hrun as <-.
    - by injection Hrun as <-. }
  destruct Hw' as [Hclients Hargs]. rewrite Hargs.
  split; [done|]. split; [done|]. split; [|split].
  - intros Hunset. unfold client_wallets. rewrite Hunset. split; [done|].
    rewrite lookup_soft_eq. rewrite IsArgSet_lookup in Hunset.
    apply bool_decide_eq_false_1 in Hunset.
    destruct (gArgs w !! "-wallet"); [|done]. exfalso. eauto.
  - intros Hset. unfold client_wallets. rewrite Hset.
    split; [done|]. by apply soft_set.
  - apply client_wallets_nil.
Qed.

Lemma Construct_wallet_client_witness :
  chain_clients
    (Construct node_externals
       (world_of [] [("/data/peers.dat", Fs.RegularFile "")] [])).2
  = [[""]].
Proof.
  destruct (Construct_wallet_client node_externals
              (world_of [] [("/data/peers.dat", Fs.RegularFile "")] [])
              (Construct node_externals
                 (world_of [] [("/data/peers.dat", Fs.RegularFile "")] [])).2)
    as [Hclients _].
  - vm_compute. reflexivity.
  - vm_compute. reflexivity.
  - exact Hclients.
Defined.

(** C10, as stated, fails: with wallets enabled and -wallet bound to no
    value, Construct leaves the option alone and the wallet client gets an
    empty list of wallets. *)
Lemma negated_wallet_option_gives_no_wallets :
  Args.GetBoolArg (gArgs (world_of [("-wallet", [])] [] []))
    "-disablewallet" (DEFAULT_DISABLE_WALLET node_externals) = false ∧
  ∃ w', Construct node_externals (world_of [("-wallet", [])] [] [])
        = (Ret tt, w') ∧
        chain_clients w' = [[]].
Proof.
  split; [vm_compute; reflexivity|].
  eexists. split; vm_compute; reflexivity.
Qed.

(** ** VerifyWallets *)

Section Verify.

Context (E : Externals).

(** One turn of the loop, in the three ways it can go. *)
Lemma VerifyWallets_loop_duplicate salvage_wallet seen wallet_file rest w :
  WalletLocation_GetPath E (gArgs w) (disk w) wallet_file ∈ seen →
  VerifyWallets_loop E salvage_wallet seen (wallet_file :: rest) w
  = (Ret false, emits [EvInitError (duplicate_wallet_error wallet_file)] w).
Proof.
  intros Hin. cbn [VerifyWallets_loop]. unfold bind at 1, WalletLocation.
  by rewrite decide_True.
Qed.

Lemma VerifyWallets_loop_turn salvage_wallet seen wallet_file rest w :
  WalletLocation_GetPath E (gArgs w) (disk w) wallet_file ∉ seen →
  VerifyWallets_loop E salvage_wallet seen (wallet_file :: rest) w
  = if verify_success E (disk w) salvage_wallet
         (WalletLocation_GetPath E (gArgs w) (disk w) wallet_file)
    then VerifyWallets_loop E salvage_wallet
           ({[WalletLocation_GetPath E (gArgs w) (disk w) wallet_file]} ∪ seen)
           rest
           (emits (verify_events E (disk w) salvage_wallet
                     (WalletLocation_GetPath E (gArgs w) (disk w) wallet_file))
              w)
    else (Ret false,
          emits (verify_events E (disk w) salvage_wallet
                   (WalletLocation_GetPath E (gArgs w) (disk w) wallet_file))
            w).
Proof.
  intros Hnin. cbn [VerifyWallets_loop]. unfold bind at 1, WalletLocation.
  rewrite decide_False by done.
  unfold verify_success, verify_events.
  unfold bind at 1, Verify, bind at 1, emit. cbn [disk set_trace].
  destruct (CWallet_Verify E (disk w)
              (WalletLocation_GetPath E (gArgs w) (disk w) wallet_file)
              salvage_wallet) as [[ok err] warn].
  cbn [fst snd].
  unfold bind, InitError, InitWarning, emit, bind, ret, emits, with_args.
  destruct (decide (err = "")), (decide (warn = "")), ok; cbn;
    rewrite <- ?app_assoc; reflexivity.
Qed.

Lemma elem_of_seen_after l seen locations :
  l ∈ seen_after seen locations ↔ l ∈ seen ∨ l ∈ locations.
Proof.
  revert seen. induction locations as [|x locations IH]; intros seen.
  - cbn. split; [by left|]. intros [|Hn]; [done|]. by apply elem_of_nil in Hn.
  - unfold seen_after in *. cbn. rewrite IH, elem_of_union, elem_of_singleton.
    rewrite elem_of_cons. tauto.
Qed.

(** The loop over wallets that are all new and all verify: it goes on with
    the rest, having shown their verification and nothing else. *)
Lemma VerifyWallets_loop_prefix salvage_wallet pre rest :
  ∀ seen w,
    NoDup (map (WalletLocation_GetPath E (gArgs w) (disk w)) pre) →
    (∀ l, l ∈ map (WalletLocation_GetPath E (gArgs w) (disk w)) pre →
          l ∉ seen) →
    Forall (λ l, verify_success E (disk w) salvage_wallet l = true)
      (map (WalletLocation_GetPath E (gArgs w) (disk w)) pre) →
    VerifyWallets_loop E salvage_wallet seen (pre ++ rest) w
    = VerifyWallets_loop E salvage_wallet
        (seen_after seen
           (map (WalletLocation_GetPath E (gArgs w) (disk w)) pre))
        rest
        (emits (flat_map (verify_events E (disk w) salvage_wallet)
                  (map (WalletLocation_GetPath E (gArgs w) (disk w)) pre))
           w).
Proof.
  induction pre as [|f pre IH]; intros seen w Hnd Hnew Hok.
  - cbn. by rewrite emits_nil.
  - cbn [map app] in *.
    apply NoDup_cons in Hnd as [Hf Hnd].
    apply Forall_cons in Hok as [Hokf Hok].
    rewrite VerifyWallets_loop_turn by (apply Hnew; by left).
    rewrite Hokf. rewrite IH.
    + cbn [gArgs disk emits with_args flat_map].
      by rewrite emits_emits.
    + done.
    + intros l Hl. rewrite elem_of_union, elem_of_singleton.
      intros [->|Hseen]; [done|]. apply (Hnew l); [by right|done].
    + done.
Qed.

(** The loop always returns, changes nothing but the trace, and every
    verification it asks for carries the flag it was given. *)
Lemma VerifyWallets_loop_flags salvage_wallet wallet_files :
  ∀ seen w, ∃ r evs,
    VerifyWallets_loop E salvage_wallet seen wallet_files w
    = (Ret r, emits evs w) ∧
    Forall (verify_flag_is salvage_wallet) evs ∧
    (wallet_files = [] → evs = []).
Proof.
  induction wallet_files as [|f rest IH]; intros seen w.
  - exists true, []. rewrite emits_nil. by repeat split.
  - destruct (decide (WalletLocation_GetPath E (gArgs w) (disk w) f ∈ seen))
      as [Hdup|Hnew].
    + rewrite VerifyWallets_loop_duplicate by done.
      eexists _, _. split; [done|]. split; [|done].
      by repeat constructor.
    + rewrite VerifyWallets_loop_turn by done.
      assert (Hev : Forall (verify_flag_is salvage_wallet)
                (verify_events E (disk w) salvage_wallet
                   (WalletLocation_GetPath E (gArgs w) (disk w) f))).
      { unfold verify_events. constructor; [done|].
        apply Forall_app. split; case_decide; by repeat constructor. }
      destruct (verify_success E (disk w) salvage_wallet _).
      * edestruct IH as (r & evs & Hrun & Hflags & _).
        rewrite Hrun. rewrite emits_emits.
        eexists _, _. split; [done|]. split; [|done].
        apply Forall_app. by split.
      * eexists _, _. split; [done|]. by split.
Qed.

(** A wallet is reached, and its verification asked for with the flag of
    the loop, when the wallets before it are at locations of their own, other
    than its own, and all verify. *)
Lemma VerifyWallets_loop_reaches salvage_wallet pre f post w r evs :
  NoDup (map (WalletLocation_GetPath E (gArgs w) (disk w)) (pre ++ [f])) →
  Forall (λ l, verify_success E (disk w) salvage_wallet l = true)
    (map (WalletLocation_GetPath E (gArgs w) (disk w)) pre) →
  VerifyWallets_loop E salvage_wallet ∅ (pre ++ f :: post) w
  = (Ret r, emits evs w) →
  EvVerify (WalletLocation_GetPath E (gArgs w) (disk w) f) salvage_wallet
    ∈ evs.
Proof.
  intros Hnd Hok Hrun.
  rewrite map_app in Hnd. apply NoDup_app in Hnd as (Hpre & Hdisj & _).
  rewrite VerifyWallets_loop_prefix in Hrun; [|done| |done].
  2: { intros l _ Hl. by apply elem_of_empty in Hl. }
  cbn [gArgs disk emits with_args] in Hrun.
  rewrite VerifyWallets_loop_turn in Hrun.
  2: { cbn [gArgs disk emits with_args].
       rewrite elem_of_seen_after. intros [Hemp|Hin].
       - by apply elem_of_empty in Hemp.
       - apply (Hdisj _ Hin). cbn. by left. }
  cbn [gArgs disk emits with_args] in Hrun.
  assert (Hhere : EvVerify (WalletLocation_GetPath E (gArgs w) (disk w) f)
                    salvage_wallet
                  ∈ verify_events E (disk w) salvage_wallet
                      (WalletLocation_GetPath E (gArgs w) (disk w) f))
    by (unfold verify_events; by left).
  destruct (verify_success E (disk w) salvage_wallet
              (WalletLocation_GetPath E (gArgs w) (disk w) f)).
  - edestruct (VerifyWallets_loop_flags salvage_wallet post)
      as (r' & evs' & Hrest & _).
    rewrite Hrest in Hrun. rewrite !emits_emits in Hrun.
    apply (f_equal snd) in Hrun. cbn [snd] in Hrun.
    apply emits_inj in Hrun. rewrite <- Hrun.
    rewrite !elem_of_app. tauto.
  - rewrite !emits_emits in Hrun.
    apply (f_equal snd) in Hrun. cbn [snd] in Hrun.
    apply emits_inj in Hrun. rewrite <- Hrun.
    rewrite !elem_of_app. tauto.
Qed.

Lemma VerifyWallets_files_loop wallet_files w :
  VerifyWallets_files E wallet_files w
  = VerifyWallets_loop E
      (Args.GetBoolArg (gArgs w) "-salvagewallet" false
       && bool_decide (length wallet_files ≤ 1)%nat)
      ∅ wallet_files (emits (verify_header E w) w).
Proof.
  unfold VerifyWallets_files, bind, LogPrintf, InitMessage, emit,
    GetBoolArg. cbn.
  unfold emits, with_args, verify_header. cbn.
  by rewrite <- app_assoc.
Qed.

(** When the checks on -walletdir pass, the wallets are verified in the
    world with the canonical directory; when they do not, one error is
    reported and nothing else happens. *)
Lemma VerifyWallets_passed wallet_files w w1 :
  after_walletdir E w = Some w1 →
  VerifyWallets E wallet_files w = VerifyWallets_files E wallet_files w1.
Proof.
  unfold after_walletdir, VerifyWallets, bind at 1, IsArgSet.
  destruct (Args.IsArgSet (gArgs w) "-walletdir"); [|by intros [= ->]].
  unfold bind, GetArg, Exists, ForceSetArg. cbn.
  destruct (fs_canonical E (disk w) _) as [c|]; [|done].
  destruct (Fs.exists_ (disk w) _); [|done].
  destruct (Fs.is_directory (disk w) _); [|done].
  destruct (Fs.is_absolute _); [|done]. cbn. by intros [= <-].
Qed.

Lemma VerifyWallets_rejected wallet_files w :
  after_walletdir E w = None →
  ∃ msg, VerifyWallets E wallet_files w
         = (Ret false, emits [EvInitError msg] w).
Proof.
  unfold after_walletdir, VerifyWallets, bind at 1, IsArgSet.
  destruct (Args.IsArgSet (gArgs w) "-walletdir"); [|done].
  unfold bind, GetArg, Exists, ForceSetArg. cbn.
  destruct (fs_canonical E (disk w) _) as [c|]; [|by eexists].
  destruct (Fs.exists_ (disk w) _); [|by eexists].
  destruct (Fs.is_directory (disk w) _); [|by eexists].
  destruct (Fs.is_absolute _); [done|by eexists].
Qed.

End Verify.

Lemma after_walletdir_world E w w1 :
  after_walletdir E w = Some w1 →
  w1 = w ∨
  ∃ canonical,
    fs_canonical E (disk w) (Args.GetArg (gArgs w) "-walletdir" "")
      = Some canonical ∧
    w1 = set_gArgs (<["-walletdir" := [canonical]]> (gArgs w)) w.
Proof.
  unfold after_walletdir.
  destruct (Args.IsArgSet (gArgs w) "-walletdir"); [|intros [= ->]; by left].
  destruct (fs_canonical E (disk w) _) as [c|]; [|done].
  destruct (_ && _); [|done]. intros [= <-]. right. by exists c.
Qed.

Lemma after_walletdir_frame E w w1 :
  after_walletdir E w = Some w1 →
  trace w1 = trace w ∧ disk w1 = disk w ∧
  Args.GetBoolArg (gArgs w1) "-salvagewallet" false
  = Args.GetBoolArg (gArgs w) "-salvagewallet" false.
Proof.
  intros [->|(c & _ & ->)]%after_walletdir_world; [done|].
  cbn. split; [done|]. split; [done|].
  apply GetBoolArg_lookup. by rewrite lookup_insert_ne.
Qed.

(** C9. Every call of the verification that VerifyWallets makes carries
    the salvage flag "-salvagewallet is on and exactly one wallet file was
    given": with no wallet file no call is made, with two or more the flag is
    false.  And the calls are made: once the wallet directory is accepted, a
    wallet is verified with that flag whenever the wallets before it are at
    locations of their own, other than its own, and all verify; so the first
    wallet always is, and with one wallet file that wallet is verified with
    the flag equal to -salvagewallet. *)
Theorem verify_salvage_flag E w wallet_files :
  ∃ r w' evs,
    VerifyWallets E wallet_files w = (Ret r, w') ∧
    trace w' = trace w ++ evs ∧
    Forall (verify_flag_is
              (Args.GetBoolArg (gArgs w) "-salvagewallet" false
               && bool_decide (length wallet_files = 1%nat))) evs ∧
    (wallet_files = [] → ∀ l flag, EvVerify l flag ∉ evs) ∧
    (∀ w1 f, wallet_files = [f] → after_walletdir E w = Some w1 →
             EvVerify (WalletLocation_GetPath E (gArgs w1) (disk w1) f)
               (Args.GetBoolArg (gArgs w) "-salvagewallet" false) ∈ evs) ∧
    (∀ w1 f post, wallet_files = f :: post →
       after_walletdir E w = Some w1 →
       EvVerify (WalletLocation_GetPath E (gArgs w1) (disk w1) f)
         (Args.GetBoolArg (gArgs w) "-salvagewallet" false
          && bool_decide (length wallet_files = 1%nat)) ∈ evs) ∧
    (∀ w1 pre f post, wallet_files = pre ++ f :: post →
       after_walletdir E w = Some w1 →
       NoDup (map (WalletLocation_GetPath E (gArgs w1) (disk w1))
                (pre ++ [f])) →
       Forall (λ l, verify_success E (disk w1)
                      (Args.GetBoolArg (gArgs w) "-salvagewallet" false
                       && bool_decide (length wallet_files = 1%nat)) l
                    = true)
         (map (WalletLocation_GetPath E (gArgs w1) (disk w1)) pre) →
       EvVerify (WalletLocation_GetPath E (gArgs w1) (disk w1) f)
         (Args.GetBoolArg (gArgs w) "-salvagewallet" false
          && bool_decide (length wallet_files = 1%nat)) ∈ evs).
Proof.
  destruct (after_walletdir E w) as [w1|] eqn:Hdir.
  - rewrite (VerifyWallets_passed E wallet_files w w1 Hdir).
    rewrite VerifyWallets_files_loop.
    destruct (after_walletdir_frame E w w1 Hdir) as (Htr & Hdisk & Hsalv).
    rewrite Hsalv.
    destruct (VerifyWallets_loop_flags E
                (Args.GetBoolArg (gArgs w) "-salvagewallet" false
                 && bool_decide (length wallet_files ≤ 1)%nat)
                wallet_files ∅ (emits (verify_header E w1) w1))
      as (r & evs & Hrun & Hflags & Hnil).
    assert (Hreach : ∀ pre f post, wallet_files = pre ++ f :: post →
              NoDup (map (WalletLocation_GetPath E (gArgs w1) (disk w1))
                       (pre ++ [f])) →
              Forall (λ l, verify_success E (disk w1)
                             (Args.GetBoolArg (gArgs w) "-salvagewallet" false
                              && bool_decide (length wallet_files = 1%nat)) l
                           = true)
                (map (WalletLocation_GetPath E (gArgs w1) (disk w1)) pre) →
              EvVerify (WalletLocation_GetPath E (gArgs w1) (disk w1) f)
                (Args.GetBoolArg (gArgs w) "-salvagewallet" false
                 && bool_decide (length wallet_files = 1%nat)) ∈ evs).
    { intros pre f post Hfiles Hnd Hok.
      assert (Hflag : bool_decide (length wallet_files = 1%nat)
                      = bool_decide (length wallet_files ≤ 1)%nat).
      { apply bool_decide_ext. rewrite Hfiles, length_app. cbn. lia. }
      rewrite Hflag in Hok |- *. pose proof Hrun as Hloop.
      set (flag := Args.GetBoolArg (gArgs w) "-salvagewallet" false
                   && bool_decide (length wallet_files ≤ 1)%nat)
        in Hloop, Hok |- *.
      rewrite Hfiles in Hloop.
      exact (VerifyWallets_loop_reaches E flag pre f post
               (emits (verify_header E w1) w1) r evs Hnd Hok Hloop). }
    rewrite Hrun, emits_emits.
    exists r, (emits (verify_header E w1 ++ evs) w1),
      (verify_header E w1 ++ evs).
    split; [done|]. split; [by rewrite <- Htr|].
    split; [|split; [|split; [|split]]].
    + apply Forall_app. split; [by repeat constructor|].
      destruct wallet_files as [|f [|f' rest]].
      * by rewrite Hnil.
      * exact Hflags.
      * cbn [length] in *.
        rewrite (bool_decide_eq_false_2 (S (S (length rest)) = 1%nat))
          by lia.
        by rewrite (bool_decide_eq_false_2 (S (S (length rest)) ≤ 1)%nat)
          in Hflags by lia.
    + intros -> l flag. rewrite Hnil by done. rewrite app_nil_r.
      unfold verify_header. rewrite !elem_of_cons.
      intros [|[|?%elem_of_nil]]; done.
    + intros w1' f Hfiles [= <-].
      apply elem_of_app. right.
      specialize (Hreach [] f [] Hfiles).
      rewrite Hfiles in Hreach. cbn in Hreach.
      rewrite andb_true_r in Hreach. apply Hreach; [|constructor].
      apply NoDup_singleton.
    + intros w1' f post Hfiles [= <-].
      apply elem_of_app. right.
      apply (Hreach [] f post Hfiles); [|constructor].
      cbn. apply NoDup_singleton.
    + intros w1' pre f post Hfiles [= <-] Hnd Hok.
      apply elem_of_app. right. by apply (Hreach pre f post).
  - destruct (VerifyWallets_rejected E wallet_files w Hdir) as (msg & Hrun).
    rewrite Hrun. eexists _, _, _. split; [done|]. split; [done|].
    split; [by repeat constructor|]. split; [|done].
    intros _ l flag. by intros ?%list_elem_of_singleton.
Qed.

Lemma string_app_inv_head (s x y : string) : s +:+ x = s +:+ y → x = y.
Proof.
  induction s as [|c s IH]; cbn; [done|]. intros [= H]. by apply IH.
Qed.

(** The three errors about -walletdir differ, whatever the directory. *)
Lemma walletdir_errors_distinct wallet_dir :
  walletdir_does_not_exist wallet_dir
    ≠ walletdir_is_not_a_directory wallet_dir ∧
  walletdir_does_not_exist wallet_dir
    ≠ walletdir_is_a_relative_path wallet_dir ∧
  walletdir_is_not_a_directory wallet_dir
    ≠ walletdir_is_a_relative_path wallet_dir.
Proof.
  unfold walletdir_does_not_exist, walletdir_is_not_a_directory,
    walletdir_is_a_relative_path.
  repeat split; intros H; do 4 apply string_app_inv_head in H;
    discriminate H.
Qed.

(** C8. When -walletdir is set, VerifyWallets checks the directory first.
    If it cannot be made canonical or does not exist, if it is not a
    directory, or if it is given as a relative path, VerifyWallets returns
    false having reported the one error of that check, and has done nothing
    else: no wallet was located or verified.  The three errors differ.  When
    all checks pass, -walletdir is bound to the canonical path before the
    wallets are looked at, and stays so. *)
Theorem walletdir_checks E w wallet_files wallet_dir :
  Args.IsArgSet (gArgs w) "-walletdir" = true →
  wallet_dir = Args.GetArg (gArgs w) "-walletdir" "" →
  (fs_canonical E (disk w) wallet_dir = None
   ∨ Fs.exists_ (disk w) wallet_dir = false →
   VerifyWallets E wallet_files w
   = (Ret false,
      emits [EvInitError (walletdir_does_not_exist wallet_dir)] w)) ∧
  (is_Some (fs_canonical E (disk w) wallet_dir) →
   Fs.exists_ (disk w) wallet_dir = true →
   Fs.is_directory (disk w) wallet_dir = false →
   VerifyWallets E wallet_files w
   = (Ret false,
      emits [EvInitError (walletdir_is_not_a_directory wallet_dir)] w)) ∧
  (is_Some (fs_canonical E (disk w) wallet_dir) →
   Fs.exists_ (disk w) wallet_dir = true →
   Fs.is_directory (disk w) wallet_dir = true →
   Fs.is_absolute wallet_dir = false →
   VerifyWallets E wallet_files w
   = (Ret false,
      emits [EvInitError (walletdir_is_a_relative_path wallet_dir)] w)) ∧
  (∀ canonical,
     fs_canonical E (disk w) wallet_dir = Some canonical →
     Fs.exists_ (disk w) wallet_dir = true →
     Fs.is_directory (disk w) wallet_dir = true →
     Fs.is_absolute wallet_dir = true →
     VerifyWallets E wallet_files w
     = VerifyWallets_files E wallet_files
         (set_gArgs (<["-walletdir" := [canonical]]> (gArgs w)) w) ∧
     ∃ r w' evs,
       VerifyWallets E wallet_files w = (Ret r, w') ∧
       gArgs w' = <["-walletdir" := [canonical]]> (gArgs w) ∧
       Args.GetArg (gArgs w') "-walletdir" "" = canonical ∧
       trace w' = trace w ++ evs) ∧
  (walletdir_does_not_exist wallet_dir
     ≠ walletdir_is_not_a_directory wallet_dir ∧
   walletdir_does_not_exist wallet_dir
     ≠ walletdir_is_a_relative_path wallet_dir ∧
   walletdir_is_not_a_directory wallet_dir
     ≠ walletdir_is_a_relative_path wallet_dir).
Proof.
  intros Hset ->.
  set (wallet_dir := Args.GetArg (gArgs w) "-walletdir" "").
  assert (Hunfold : VerifyWallets E wallet_files w =
    match fs_canonical E (disk w) wallet_dir with
    | None => (Ret false,
               emits [EvInitError (walletdir_does_not_exist wallet_dir)] w)
    | Some canonical =>
        if negb (Fs.exists_ (disk w) wallet_dir) then
          (Ret false,
           emits [EvInitError (walletdir_does_not_exist wallet_dir)] w)
        else if negb (Fs.is_directory (disk w) wallet_dir) then
          (Ret false,
           emits [EvInitError (walletdir_is_not_a_directory wallet_dir)] w)
        else if negb (Fs.is_absolute wallet_dir) then
          (Ret false,
           emits [EvInitError (walletdir_is_a_relative_path wallet_dir)] w)
        else VerifyWallets_files E wallet_files
               (set_gArgs (<["-walletdir" := [canonical]]> (gArgs w)) w)
    end).
  { unfold VerifyWallets, bind at 1, IsArgSet. rewrite Hset.
    unfold bind, GetArg, Exists, ForceSetArg. cbn. fold wallet_dir.
    destruct (fs_canonical E (disk w) wallet_dir) as [c|]; [|done].
    destruct (Fs.exists_ (disk w) wallet_dir); [|done].
    destruct (Fs.is_directory (disk w) wallet_dir); [|done].
    by destruct (Fs.is_absolute wallet_dir). }
  rewrite Hunfold. clear Hunfold.
  split; [|split; [|split; [|split]]].
  - intros [-> | Hex]; [done|]. rewrite Hex.
    by destruct (fs_canonical E (disk w) wallet_dir).
  - intros [c ->] -> ->. done.
  - intros [c ->] -> -> ->. done.
  - intros c -> -> -> ->. cbn [negb]. split; [done|].
    rewrite VerifyWallets_files_loop.
    edestruct VerifyWallets_loop_flags as (r & evs & Hrun & _).
    rewrite Hrun, emits_emits. eexists _, _, _. split; [done|].
    cbn [gArgs emits with_args set_gArgs].
    split; [done|]. split; [|done].
    unfold Args.GetArg, Args.IsArgNegated, Args.Find.
    rewrite lookup_insert_eq. by rewrite bool_decide_eq_false_2.
  - apply walletdir_errors_distinct.
Qed.

Lemma walletdir_checks_witness :
  VerifyWallets node_externals ["a"]
    (world_of [("-walletdir", ["wallets"])] [("wallets", Fs.Directory)] [])
  = (Ret false,
     emits [EvInitError (walletdir_is_a_relative_path "wallets")]
       (world_of [("-walletdir", ["wallets"])] [("wallets", Fs.Directory)]
          [])).
Proof.
  destruct (walletdir_checks node_externals
              (world_of [("-walletdir", ["wallets"])]
                 [("wallets", Fs.Directory)] [])
              ["a"] "wallets") as (_ & _ & Hrelative & _).
  - vm_compute. reflexivity.
  - vm_compute. reflexivity.
  - apply Hrelative.
    + vm_compute. by eexists.
    + vm_compute. reflexivity.
    + vm_compute. reflexivity.
    + vm_compute. reflexivity.
Defined.

(** C2, as amended.  Once the wallet directory is accepted, VerifyWallets
    goes through the wallet files in order.  A wallet at a new location that
    verifies has its error and warning strings reported, if any, and the
    next wallet is looked at.  The first wallet [f] that is at a location
    already seen, or whose verification fails, ends the stage with result
    false: for a location already seen the duplicate error naming [f] is
    reported without verifying it, for a failed verification its error and
    warning are; no wallet after [f] is located or verified.  When every
    wallet is new and verifies, the result is true. *)
Theorem VerifyWallets_stops_at_first_failure E w w1 :
  after_walletdir E w = Some w1 →
  (∀ pre f post,
     NoDup (map (WalletLocation_GetPath E (gArgs w1) (disk w1)) pre) →
     Forall (λ l, verify_success E (disk w1)
                    (salvage_flag (gArgs w1) (pre ++ f :: post)) l = true)
       (map (WalletLocation_GetPath E (gArgs w1) (disk w1)) pre) →
     WalletLocation_GetPath E (gArgs w1) (disk w1) f
       ∈ map (WalletLocation_GetPath E (gArgs w1) (disk w1)) pre
     ∨ verify_success E (disk w1)
         (salvage_flag (gArgs w1) (pre ++ f :: post))
         (WalletLocation_GetPath E (gArgs w1) (disk w1) f) = false →
     VerifyWallets E (pre ++ f :: post) w
     = (Ret false,
        emits
          (verify_header E w1 ++
           flat_map (verify_events E (disk w1)
                       (salvage_flag (gArgs w1) (pre ++ f :: post)))
             (map (WalletLocation_GetPath E (gArgs w1) (disk w1)) pre) ++
           (if decide (WalletLocation_GetPath E (gArgs w1) (disk w1) f
                       ∈ map (WalletLocation_GetPath E (gArgs w1) (disk w1))
                           pre)
            then [EvInitError (duplicate_wallet_error f)]
            else verify_events E (disk w1)
                   (salvage_flag (gArgs w1) (pre ++ f :: post))
                   (WalletLocation_GetPath E (gArgs w1) (disk w1) f)))
          w1)) ∧
  (∀ wallet_files,
     NoDup (map (WalletLocation_GetPath E (gArgs w1) (disk w1))
              wallet_files) →
     Forall (λ l, verify_success E (disk w1)
                    (salvage_flag (gArgs w1) wallet_files) l = true)
       (map (WalletLocation_GetPath E (gArgs w1) (disk w1)) wallet_files) →
     VerifyWallets E wallet_files w
     = (Ret true,
        emits
          (verify_header E w1 ++
           flat_map (verify_events E (disk w1)
                       (salvage_flag (gArgs w1) wallet_files))
             (map (WalletLocation_GetPath E (gArgs w1) (disk w1))
                wallet_files))
          w1)).
Proof.
  intros Hdir. split.
  - intros pre f post Hnd Hok Hf.
    rewrite (VerifyWallets_passed E _ w w1 Hdir), VerifyWallets_files_loop.
    fold (salvage_flag (gArgs w1) (pre ++ f :: post)).
    rewrite VerifyWallets_loop_prefix; [|done|set_solver|done].
    cbn [gArgs disk emits with_args]. rewrite emits_emits.
    case_decide as Hdup.
    + rewrite VerifyWallets_loop_duplicate.
      * by rewrite emits_emits, <- app_assoc.
      * apply elem_of_seen_after. by right.
    + rewrite VerifyWallets_loop_turn.
      * cbn [gArgs disk emits with_args].
        destruct Hf as [|Hfail]; [done|]. rewrite Hfail.
        by rewrite emits_emits, <- app_assoc.
      * rewrite elem_of_seen_after. intros [Hemp|Hin]; [|done].
        by apply elem_of_empty in Hemp.
  - intros wallet_files Hnd Hok.
    rewrite (VerifyWallets_passed E _ w w1 Hdir), VerifyWallets_files_loop.
    fold (salvage_flag (gArgs w1) wallet_files).
    rewrite <- (app_nil_r wallet_files) at 2.
    rewrite VerifyWallets_loop_prefix; [|done|set_solver|done].
    cbn [gArgs disk emits with_args VerifyWallets_loop].
    unfold ret. by rewrite emits_emits.
Qed.

Lemma VerifyWallets_stops_at_first_failure_witness :
  VerifyWallets node_externals (["a"] ++ "bad" :: ["worse"])
    (world_of []
       [("/data/bad", Fs.RegularFile "corrupt");
        ("/data/worse", Fs.RegularFile "corrupt")] [])
  = (Ret false,
     emits
       [EvLogPrintf ("Using wallet directory /data" +:+ nl);
        EvInitMessage "Verifying wallet(s)...";
        EvVerify "/data/a" false;
        EvVerify "/data/bad" false;
        EvInitError "Corrupt wallet /data/bad"]
       (world_of []
          [("/data/bad", Fs.RegularFile "corrupt");
           ("/data/worse", Fs.RegularFile "corrupt")] [])).
Proof.
  destruct (VerifyWallets_stops_at_first_failure node_externals
              (world_of []
                 [("/data/bad", Fs.RegularFile "corrupt");
                  ("/data/worse", Fs.RegularFile "corrupt")] [])
              (world_of []
                 [("/data/bad", Fs.RegularFile "corrupt");
                  ("/data/worse", Fs.RegularFile "corrupt")] []))
    as [Hfirst _].
  - vm_compute. reflexivity.
  - rewrite (Hfirst ["a"] "bad" ["worse"]).
    + vm_compute. reflexivity.
    + vm_compute. apply NoDup_singleton.
    + repeat constructor.
    + right. vm_compute. reflexivity.
Defined.

(** C2, as stated, fails: of two corrupt wallets only the first is verified
    and reported; the stage returns at the first failed verification. *)
Lemma second_corrupt_wallet_not_verified :
  CWallet_Verify node_externals
    (disk (world_of []
             [("/data/bad", Fs.RegularFile "corrupt");
              ("/data/worse", Fs.RegularFile "corrupt")] []))
    "/data/worse" false
  = (false, "Corrupt wallet /data/worse", "") ∧
  ∃ w',
    VerifyWallets node_externals ["bad"; "worse"]
      (world_of []
         [("/data/bad", Fs.RegularFile "corrupt");
          ("/data/worse", Fs.RegularFile "corrupt")] [])
    = (Ret false, w') ∧
    trace w'
    = [EvLogPrintf ("Using wallet directory /data" +:+ nl);
       EvInitMessage "Verifying wallet(s)...";
       EvVerify "/data/bad" false;
       EvInitError "Corrupt wallet /data/bad"].
Proof.
  split; [vm_compute; reflexivity|].
  eexists. split; vm_compute; reflexivity.
Qed.

(** * Further properties *)

(** ** ParameterInteraction: which rule fails *)

Lemma GetBoolArg_by_lookup (a : gmap string (list string)) k d :
  Args.GetBoolArg a k d =
  match a !! k with
  | Some [] => false
  | Some l => from_option Args.InterpretBool d (last l)
  | None => d
  end.
Proof.
  unfold Args.GetBoolArg, Args.IsArgNegated, Args.Find.
  destruct (a !! k) as [[|v l]|]; [done| |done].
  by rewrite bool_decide_eq_false_2.
Qed.

(** The read of -rescan by the last rule, in each store that rule can see. *)
Lemma rescan_after_soft (a s : gmap string (list string)) :
  s !! "-rescan" = Some (default ["1"] (a !! "-rescan")) →
  Args.GetBoolArg s "-rescan" false =
  match a !! "-rescan" with
  | Some _ => Args.GetBoolArg a "-rescan" false
  | None => true
  end.
Proof.
  intros Hs. rewrite (GetBoolArg_by_lookup s), Hs.
  destruct (a !! "-rescan") as [l|] eqn:Ha; [|done].
  by rewrite (GetBoolArg_by_lookup a), Ha.
Qed.

Lemma rescan_untouched (a s : gmap string (list string)) :
  s !! "-rescan" = a !! "-rescan" →
  Args.GetBoolArg s "-rescan" false =
  match a !! "-rescan" with
  | Some _ => Args.GetBoolArg a "-rescan" false
  | None => false
  end.
Proof.
  intros Hs. rewrite (GetBoolArg_lookup a s) by done.
  rewrite (GetBoolArg_by_lookup a).
  by destruct (a !! "-rescan") as [[|v l]|].
Qed.

Lemma sysperms_errors_lookup (a s : gmap string (list string)) :
  s !! "-sysperms" = a !! "-sysperms" →
  s !! "-prune" = a !! "-prune" →
  sysperms_errors s =
  if Args.GetBoolArg a "-sysperms" false then [sysperms_error]
  else if negb (Args.GetIntArg a "-prune" 0 =? 0)
          && Args.GetBoolArg s "-rescan" false
       then [pruned_rescan_error]
       else [].
Proof.
  intros Hs Hp. unfold sysperms_errors.
  by rewrite (GetBoolArg_lookup a s), (GetIntArg_lookup a s).
Qed.

Lemma interaction_errors_first_failing_rule E a :
  interaction_errors E a = first_failing_rule a.
Proof.
  unfold first_failing_rule. destruct (is_multiwallet_of a) eqn:Hm.
  - rewrite multiwallet_errors by done. cbn [andb].
    destruct (Args.GetBoolArg a "-salvagewallet" false) eqn:Hs; [done|].
    destruct (Args.GetBoolArg a "-zapwallettxes" false) eqn:Hz; [done|].
    destruct (Args.GetBoolArg a "-upgradewallet" false); [done|].
    rewrite (sysperms_errors_lookup a) by (by soft_lookups).
    rewrite (rescan_untouched a) by (by soft_lookups).
    unfold effective_rescan. rewrite Hs, Hz.
    by destruct (a !! "-rescan").
  - cbn [andb]. unfold interaction_errors. rewrite Hm.
    unfold salvage_errors, zap_errors, zap_store, upgrade_errors.
    cbn [andb].
    rewrite !(GetBoolArg_lookup a (blocksonly_store E a))
      by (by soft_lookups).
    rewrite (GetBoolArg_lookup a (soft _ "-rescan" "1") "-zapwallettxes")
      by (by soft_lookups).
    unfold effective_rescan.
    destruct (Args.GetBoolArg a "-salvagewallet" false),
             (Args.GetBoolArg a "-zapwallettxes" false); cbn [andb orb].
    + rewrite (sysperms_errors_lookup a) by (by soft_lookups).
      rewrite (rescan_after_soft a)
        by (soft_lookups; by destruct (a !! "-rescan")).
      done.
    + rewrite (sysperms_errors_lookup a) by (by soft_lookups).
      rewrite (rescan_after_soft a) by (by soft_lookups).
      done.
    + rewrite (sysperms_errors_lookup a) by (by soft_lookups).
      rewrite (rescan_after_soft a) by (by soft_lookups).
      done.
    + rewrite (sysperms_errors_lookup a) by (by soft_lookups).
      rewrite (rescan_untouched a) by (by soft_lookups).
      done.
Qed.

Lemma first_failing_rule_nil (a : gmap string (list string)) :
  first_failing_rule a = [] ↔
  (is_multiwallet_of a = true →
   Args.GetBoolArg a "-salvagewallet" false = false ∧
   Args.GetBoolArg a "-zapwallettxes" false = false ∧
   Args.GetBoolArg a "-upgradewallet" false = false) ∧
  Args.GetBoolArg a "-sysperms" false = false ∧
  (Args.GetIntArg a "-prune" 0 ≠ 0 → effective_rescan a = false).
Proof.
  unfold first_failing_rule.
  destruct (is_multiwallet_of a),
           (Args.GetBoolArg a "-salvagewallet" false),
           (Args.GetBoolArg a "-zapwallettxes" false),
           (Args.GetBoolArg a "-upgradewallet" false),
           (Args.GetBoolArg a "-sysperms" false),
           (Z.eqb_spec (Args.GetIntArg a "-prune" 0) 0),
           (effective_rescan a);
    cbn [andb negb]; split; try done;
    try (intros (Hmulti & Hsys & Hprune);
         first [ by destruct (Hmulti eq_refl) as (? & ? & ?)
               | by specialize (Hprune ltac:(done)) ]);
    intros _; repeat split; try done; intros ?; done.
Qed.

(** X1. With wallets enabled, ParameterInteraction reports the error of the
    first rule that fails, in the order: salvage, zap, upgrade (each only
    with more than one wallet), -sysperms, pruning with a rescan, where the
    rescan is the one in force after the soft-sets (given explicitly, or
    asked for by salvage or zap).  It returns true exactly when no rule
    fails. *)
Theorem ParameterInteraction_first_failing_rule E w :
  Args.GetBoolArg (gArgs w) "-disablewallet" (DEFAULT_DISABLE_WALLET E)
    = false →
  ∃ r w' evs,
    ParameterInteraction E w = (Ret r, w') ∧
    trace w' = trace w ++ evs ∧
    init_errors evs = first_failing_rule (gArgs w) ∧
    (r = true ↔
     (is_multiwallet_of (gArgs w) = true →
      Args.GetBoolArg (gArgs w) "-salvagewallet" false = false ∧
      Args.GetBoolArg (gArgs w) "-zapwallettxes" false = false ∧
      Args.GetBoolArg (gArgs w) "-upgradewallet" false = false) ∧
     Args.GetBoolArg (gArgs w) "-sysperms" false = false ∧
     (Args.GetIntArg (gArgs w) "-prune" 0 ≠ 0 →
      effective_rescan (gArgs w) = false)).
Proof.
  intros Hd.
  destruct (ParameterInteraction_closed_form E w Hd) as (evs & Hrun & Herr).
  rewrite interaction_errors_first_failing_rule in Hrun, Herr.
  eexists _, _, evs. split; [exact Hrun|].
  split; [apply with_args_trace|]. split; [done|].
  rewrite bool_decide_eq_true. apply first_failing_rule_nil.
Qed.

Lemma ParameterInteraction_first_failing_rule_witness :
  ∃ r w' evs,
    ParameterInteraction node_externals
      (world_of [("-wallet", ["a"]); ("-prune", ["550"]);
                 ("-salvagewallet", ["1"])] [] [])
    = (Ret r, w') ∧
    trace w' = [] ++ evs ∧
    init_errors evs = [pruned_rescan_error] ∧
    (r = true ↔
     (false = true → true = false ∧ false = false ∧ false = false) ∧
     false = false ∧
     (550 ≠ 0 → true = false)).
Proof.
  apply (ParameterInteraction_first_failing_rule node_externals
           (world_of [("-wallet", ["a"]); ("-prune", ["550"]);
                      ("-salvagewallet", ["1"])] [] [])).
  vm_compute. reflexivity.
Defined.

(** ** ParameterInteraction: what it does to the store *)

(** X2. With wallets enabled, ParameterInteraction leaves the store as it
    was but for three options, each bound to its automatic value only if it
    had no binding: -walletbroadcast to 0 when -blocksonly is on;
    -rescan to 1 when there is at most one wallet and salvage or zap is on;
    -persistmempool to 0 when zap is on, unless salvage with several wallets
    was rejected first.  So a rejected zap with several wallets has still
    switched off -persistmempool, and has not asked for a rescan. *)
Theorem ParameterInteraction_store E w :
  Args.GetBoolArg (gArgs w) "-disablewallet" (DEFAULT_DISABLE_WALLET E)
    = false →
  ∃ r w',
    ParameterInteraction E w = (Ret r, w') ∧
    gArgs w' !! "-walletbroadcast"
    = (if Args.GetBoolArg (gArgs w) "-blocksonly" (DEFAULT_BLOCKSONLY E)
       then Some (default ["0"] (gArgs w !! "-walletbroadcast"))
       else gArgs w !! "-walletbroadcast") ∧
    gArgs w' !! "-rescan"
    = (if negb (is_multiwallet_of (gArgs w))
          && (Args.GetBoolArg (gArgs w) "-salvagewallet" false
              || Args.GetBoolArg (gArgs w) "-zapwallettxes" false)
       then Some (default ["1"] (gArgs w !! "-rescan"))
       else gArgs w !! "-rescan") ∧
    gArgs w' !! "-persistmempool"
    = (if Args.GetBoolArg (gArgs w) "-zapwallettxes" false
          && negb (is_multiwallet_of (gArgs w)
                   && Args.GetBoolArg (gArgs w) "-salvagewallet" false)
       then Some (default ["0"] (gArgs w !! "-persistmempool"))
       else gArgs w !! "-persistmempool") ∧
    (∀ k, k ∉ soft_keys → gArgs w' !! k = gArgs w !! k).
Proof.
  intros Hd.
  destruct (ParameterInteraction_closed_form E w Hd) as (evs & Hrun & _).
  eexists _, _. split; [exact Hrun|]. cbn [gArgs with_args].
  apply interaction_store_lookups.
Qed.

Lemma ParameterInteraction_store_witness :
  ∃ r w',
    ParameterInteraction node_externals
      (world_of [("-wallet", ["a"; "b"]); ("-zapwallettxes", ["1"])] [] [])
    = (Ret r, w') ∧
    gArgs w' !! "-walletbroadcast" = None ∧
    gArgs w' !! "-rescan" = None ∧
    gArgs w' !! "-persistmempool" = Some ["0"] ∧
    (∀ k, k ∉ soft_keys →
          gArgs w' !! k
          = gArgs (world_of [("-wallet", ["a"; "b"]);
                             ("-zapwallettxes", ["1"])] [] []) !! k).
Proof.
  apply (ParameterInteraction_store node_externals
           (world_of [("-wallet", ["a"; "b"]); ("-zapwallettxes", ["1"])]
              [] [])).
  vm_compute. reflexivity.
Defined.

Lemma interaction_store_reads E (a : gmap string (list string)) k d :
  k ∉ soft_keys →
  Args.GetBoolArg (interaction_store E a) k d = Args.GetBoolArg a k d.
Proof.
  intros Hk. apply GetBoolArg_lookup.
  by apply interaction_store_lookups.
Qed.

Lemma interaction_store_multiwallet E (a : gmap string (list string)) :
  is_multiwallet_of (interaction_store E a) = is_multiwallet_of a.
Proof.
  unfold is_multiwallet_of. rewrite (GetArgs_lookup a); [done|].
  apply interaction_store_lookups. not_a_soft_key.
Qed.

Lemma interaction_store_idempotent E (a : gmap string (list string)) :
  interaction_store E (interaction_store E a) = interaction_store E a.
Proof.
  destruct (interaction_store_lookups E a) as (Hwb & Hr & Hp & Ho).
  destruct (interaction_store_lookups E (interaction_store E a))
    as (Hwb' & Hr' & Hp' & Ho').
  rewrite interaction_store_multiwallet in Hr', Hp'.
  assert (Hb : Args.GetBoolArg (interaction_store E a) "-blocksonly"
                 (DEFAULT_BLOCKSONLY E)
               = Args.GetBoolArg a "-blocksonly" (DEFAULT_BLOCKSONLY E))
    by (apply interaction_store_reads; not_a_soft_key).
  assert (Hs : Args.GetBoolArg (interaction_store E a) "-salvagewallet" false
               = Args.GetBoolArg a "-salvagewallet" false)
    by (apply interaction_store_reads; not_a_soft_key).
  assert (Hz : Args.GetBoolArg (interaction_store E a) "-zapwallettxes" false
               = Args.GetBoolArg a "-zapwallettxes" false)
    by (apply interaction_store_reads; not_a_soft_key).
  rewrite Hb in Hwb'. rewrite Hs, Hz in Hr'. rewrite Hs, Hz in Hp'.
  apply map_eq. intros k.
  destruct (decide (k = "-walletbroadcast")) as [->|Hk1].
  { rewrite Hwb', Hwb.
    by destruct (Args.GetBoolArg a "-blocksonly" (DEFAULT_BLOCKSONLY E)). }
  destruct (decide (k = "-rescan")) as [->|Hk2].
  { rewrite Hr', Hr.
    by destruct (is_multiwallet_of a),
                (Args.GetBoolArg a "-salvagewallet" false),
                (Args.GetBoolArg a "-zapwallettxes" false). }
  destruct (decide (k = "-persistmempool")) as [->|Hk3].
  { rewrite Hp', Hp.
    by destruct (is_multiwallet_of a),
                (Args.GetBoolArg a "-salvagewallet" false),
                (Args.GetBoolArg a "-zapwallettxes" false). }
  apply Ho'. unfold soft_keys. rewrite !not_elem_of_cons.
  repeat split; [done..|apply not_elem_of_nil].
Qed.

Lemma effective_rescan_idempotent E (a : gmap string (list string)) :
  effective_rescan (interaction_store E a) = effective_rescan a.
Proof.
  destruct (interaction_store_lookups E a) as (_ & Hr & _ & _).
  unfold effective_rescan.
  rewrite (interaction_store_reads E a "-salvagewallet")
    by not_a_soft_key.
  rewrite (interaction_store_reads E a "-zapwallettxes")
    by not_a_soft_key.
  rewrite (GetBoolArg_by_lookup (interaction_store E a) "-rescan").
  rewrite (GetBoolArg_by_lookup a "-rescan"). rewrite Hr.
  destruct (is_multiwallet_of a),
           (Args.GetBoolArg a "-salvagewallet" false),
           (Args.GetBoolArg a "-zapwallettxes" false);
    cbn [andb orb negb]; by destruct (a !! "-rescan") as [[|v l]|].
Qed.

Lemma first_failing_rule_idempotent E (a : gmap string (list string)) :
  first_failing_rule (interaction_store E a) = first_failing_rule a.
Proof.
  unfold first_failing_rule.
  rewrite interaction_store_multiwallet, effective_rescan_idempotent.
  rewrite (interaction_store_reads E a "-salvagewallet")
    by not_a_soft_key.
  rewrite (interaction_store_reads E a "-zapwallettxes")
    by not_a_soft_key.
  rewrite (interaction_store_reads E a "-upgradewallet")
    by not_a_soft_key.
  rewrite (interaction_store_reads E a "-sysperms") by not_a_soft_key.
  rewrite (GetIntArg_lookup a (interaction_store E a) "-prune"); [done|].
  apply interaction_store_lookups. not_a_soft_key.
Qed.

(** X3. ParameterInteraction can be run again: the second run returns what
    the first returned and reports the same errors, and it leaves the store
    as the first run left it, every soft-set having been made already. *)
Theorem ParameterInteraction_idempotent E w :
  ∃ r w1 w2 evs1 evs2,
    ParameterInteraction E w = (Ret r, w1) ∧
    ParameterInteraction E w1 = (Ret r, w2) ∧
    gArgs w2 = gArgs w1 ∧
    trace w1 = trace w ++ evs1 ∧
    trace w2 = trace w1 ++ evs2 ∧
    init_errors evs2 = init_errors evs1.
Proof.
  destruct (Args.GetBoolArg (gArgs w) "-disablewallet"
              (DEFAULT_DISABLE_WALLET E)) eqn:Hd.
  - destruct (ParameterInteraction_disabled E w Hd) as (evs1 & Hrun1 & Herr1).
    destruct (ParameterInteraction_disabled E (emits evs1 w) Hd)
      as (evs2 & Hrun2 & Herr2).
    exists true, (emits evs1 w), (emits evs2 (emits evs1 w)), evs1, evs2.
    by rewrite Herr1, Herr2.
  - destruct (ParameterInteraction_closed_form E w Hd)
      as (evs1 & Hrun1 & Herr1).
    set (w1 := with_args (interaction_store E (gArgs w)) evs1 w) in *.
    assert (Hd1 : Args.GetBoolArg (gArgs w1) "-disablewallet"
                    (DEFAULT_DISABLE_WALLET E) = false).
    { cbn [gArgs w1 with_args]. rewrite interaction_store_reads; [done|].
      not_a_soft_key. }
    destruct (ParameterInteraction_closed_form E w1 Hd1)
      as (evs2 & Hrun2 & Herr2).
    cbn [gArgs w1 with_args] in Hrun2, Herr2.
    rewrite interaction_store_idempotent in Hrun2.
    rewrite !interaction_errors_first_failing_rule in *.
    rewrite first_failing_rule_idempotent in Hrun2, Herr2.
    eexists _, w1, _, evs1, evs2. split; [exact Hrun1|].
    split; [exact Hrun2|]. cbn [gArgs trace w1 with_args].
    split; [done|]. split; [done|]. split; [done|]. congruence.
Qed.

(** ** ParameterInteraction: what it reports besides errors *)

Section Warnings.

Context (E : Externals).

Lemma init_warnings_app e1 e2 :
  init_warnings (e1 ++ e2) = init_warnings e1 ++ init_warnings e2.
Proof. unfold init_warnings. apply omap_app. Qed.

Lemma warns_of_fee_after w w1 evs1 r w' :
  trace w1 = trace w ++ evs1 → init_warnings evs1 = [] →
  warns_of_fee E w1 r w' → warns_of_fee E w r w'.
Proof.
  intros Htr Hq (evs & Htr' & Hw). exists (evs1 ++ evs).
  rewrite Htr', Htr, app_assoc. split; [done|].
  by rewrite init_warnings_app, Hq.
Qed.

Lemma wp_soft_logged_quiet k b line w (Q : unit → World → Prop) :
  (∀ w1 evs, trace w1 = trace w ++ evs → init_warnings evs = [] →
             Q tt w1) →
  wp (mwhen (SoftSetBoolArg k b) (LogPrintf line)) w Q.
Proof.
  intros HQ. unfold wp, mwhen, bind, SoftSetBoolArg.
  destruct (Args.SoftSetBoolArg (gArgs w) k b) as [[] a'].
  - eexists _, _. split; [reflexivity|].
    by apply (HQ _ [EvLogPrintf line]).
  - eexists _, _. split; [reflexivity|].
    apply (HQ _ []); [|done]. cbn. by rewrite app_nil_r.
Qed.

Lemma wp_failed msg w :
  wp (InitError msg) w (warns_of_fee E w).
Proof. apply wp_InitError. by exists [EvInitError msg]. Qed.

Lemma sysperms_stage_warns w :
  wp (ParameterInteraction_sysperms E) w (warns_of_fee E w).
Proof.
  unfold ParameterInteraction_sysperms.
  apply wp_bind, wp_GetBoolArg.
  destruct (Args.GetBoolArg (gArgs w) "-sysperms" false);
    [apply wp_failed|].
  apply wp_bind. unfold mand.
  apply wp_bind, wp_bind, wp_GetIntArg, wp_ret.
  assert (Hrest : ∀ b : bool,
    wp (if b then InitError pruned_rescan_error
        else (if HIGH_TX_FEE_PER_KB E <? minRelayTxFee_GetFeePerK E
              then InitWarning
                     (AmountHighWarn E "-minrelaytxfee" +:+ " " +:+
                      "The wallet will avoid paying less than the minimum relay fee.")
              else ret tt) then! ret true) w (warns_of_fee E w)).
  { intros [|]; [apply wp_failed|]. apply wp_bind.
    unfold warns_of_fee.
    destruct (HIGH_TX_FEE_PER_KB E <? minRelayTxFee_GetFeePerK E).
    - apply wp_emit, wp_ret. by eexists.
    - apply wp_ret, wp_ret. exists []. by rewrite app_nil_r. }
  destruct (negb (Args.GetIntArg (gArgs w) "-prune" 0 =? 0)).
  - apply wp_GetBoolArg.
    exact (Hrest (Args.GetBoolArg (gArgs w) "-rescan" false)).
  - apply wp_ret. exact (Hrest false).
Qed.

Lemma upgrade_stage_warns is_multiwallet w :
  wp (ParameterInteraction_upgrade E is_multiwallet) w (warns_of_fee E w).
Proof.
  unfold ParameterInteraction_upgrade.
  destruct is_multiwallet; [|apply sysperms_stage_warns].
  apply wp_bind, wp_GetBoolArg.
  destruct (Args.GetBoolArg (gArgs w) "-upgradewallet" false);
    [apply wp_failed | apply sysperms_stage_warns].
Qed.

Lemma zap_stage_warns is_multiwallet w :
  wp (ParameterInteraction_zap E is_multiwallet) w (warns_of_fee E w).
Proof.
  unfold ParameterInteraction_zap.
  apply wp_bind, wp_GetBoolArg.
  destruct (Args.GetBoolArg (gArgs w) "-zapwallettxes" false).
  - rewrite mand_ret_true. apply wp_bind, wp_soft_logged_quiet.
    intros w1 evs1 Htr1 Hq1. destruct is_multiwallet.
    + eapply wp_mono; [apply wp_failed|].
      intros r w' Hw. by apply (warns_of_fee_after w w1 evs1).
    + apply wp_bind, wp_soft_logged_quiet. intros w2 evs2 Htr2 Hq2.
      eapply wp_mono; [apply upgrade_stage_warns|].
      intros r w' Hw.
      apply (warns_of_fee_after w w1 evs1); [done..|].
      by apply (warns_of_fee_after w1 w2 evs2).
  - rewrite mwhen_ret_false. apply wp_bind, wp_ret.
    apply upgrade_stage_warns.
Qed.

Lemma salvage_stage_warns is_multiwallet w :
  wp (ParameterInteraction_salvage E is_multiwallet) w (warns_of_fee E w).
Proof.
  unfold ParameterInteraction_salvage.
  apply wp_bind, wp_GetBoolArg.
  destruct (Args.GetBoolArg (gArgs w) "-salvagewallet" false);
    [|apply zap_stage_warns].
  destruct is_multiwallet; [apply wp_failed|].
  apply wp_bind, wp_soft_logged_quiet. intros w1 evs1 Htr1 Hq1.
  eapply wp_mono; [apply zap_stage_warns|].
  intros r w' Hw. by apply (warns_of_fee_after w w1 evs1).
Qed.

Lemma ParameterInteraction_enabled_warns w :
  Args.GetBoolArg (gArgs w) "-disablewallet" (DEFAULT_DISABLE_WALLET E)
    = false →
  wp (ParameterInteraction E) w (warns_of_fee E w).
Proof.
  intros Hd. unfold ParameterInteraction.
  apply wp_bind, wp_GetBoolArg. rewrite Hd.
  apply wp_bind, wp_GetArgs, wp_bind, wp_mwhen_mand_GetBoolArg.
  destruct (Args.GetBoolArg (gArgs w) "-blocksonly" (DEFAULT_BLOCKSONLY E)).
  - apply wp_soft_logged_quiet. intros w1 evs1 Htr1 Hq1.
    eapply wp_mono; [apply salvage_stage_warns|].
    intros r w' Hw. by apply (warns_of_fee_after w w1 evs1).
  - apply salvage_stage_warns.
Qed.

End Warnings.

Lemma init_warnings_LogPrintf {A} (line : A → string) (l : list A) :
  init_warnings (map (λ x, EvLogPrintf (line x)) l) = [].
Proof. induction l; [done|]. cbn. done. Qed.

(** X4. With wallets disabled ParameterInteraction looks at nothing but the
    list of wallets: whatever else is configured it returns true, reports
    no error and no warning, logs one line per configured wallet, in order,
    saying that it is ignored, and leaves the store, the disk and the
    registry as they were. *)
Theorem ParameterInteraction_disabled_ignores_wallets E w :
  Args.GetBoolArg (gArgs w) "-disablewallet" (DEFAULT_DISABLE_WALLET E)
    = true →
  ParameterInteraction E w
  = (Ret true,
     emits (map ignoring_wallet (Args.GetArgs (gArgs w) "-wallet")) w).
Proof.
  intros Hd. unfold ParameterInteraction, bind, GetBoolArg, GetArgs, ret.
  rewrite Hd. by rewrite for_each_LogPrintf.
Qed.

Lemma ParameterInteraction_disabled_ignores_wallets_witness :
  ParameterInteraction node_externals
    (world_of [("-disablewallet", ["1"]); ("-wallet", ["a"; "b"]);
               ("-salvagewallet", ["1"]); ("-sysperms", ["1"])] [] [])
  = (Ret true,
     emits [ignoring_wallet "a"; ignoring_wallet "b"]
       (world_of [("-disablewallet", ["1"]); ("-wallet", ["a"; "b"]);
                  ("-salvagewallet", ["1"]); ("-sysperms", ["1"])] [] [])).
Proof.
  apply (ParameterInteraction_disabled_ignores_wallets node_externals
           (world_of [("-disablewallet", ["1"]); ("-wallet", ["a"; "b"]);
                      ("-salvagewallet", ["1"]); ("-sysperms", ["1"])]
              [] [])).
  vm_compute. reflexivity.
Defined.

(** X5. ParameterInteraction gives the warning that the minimum relay fee
    is very high exactly when wallets are enabled, no rule has failed and
    the fee is above the threshold; it gives no other warning, and none when
    it returns false or when wallets are disabled. *)
Theorem ParameterInteraction_fee_warning E w :
  ∃ r w' evs,
    ParameterInteraction E w = (Ret r, w') ∧
    trace w' = trace w ++ evs ∧
    init_warnings evs =
    if negb (Args.GetBoolArg (gArgs w) "-disablewallet"
               (DEFAULT_DISABLE_WALLET E))
       && r && (HIGH_TX_FEE_PER_KB E <? minRelayTxFee_GetFeePerK E)
    then [high_fee_warning E] else [].
Proof.
  destruct (Args.GetBoolArg (gArgs w) "-disablewallet"
              (DEFAULT_DISABLE_WALLET E)) eqn:Hd.
  - unfold ParameterInteraction, bind, GetBoolArg, GetArgs, ret.
    rewrite Hd, for_each_LogPrintf. eexists _, _, _.
    split; [done|]. split; [done|]. apply init_warnings_LogPrintf.
  - destruct (ParameterInteraction_enabled_warns E w Hd)
      as (r & w' & Hrun & evs & Htr & Hw).
    by exists r, w', evs.
Qed.

(** ** VerifyWallets: when it succeeds, and what it leaves alone *)

Section VerifyMore.

Context (E : Externals).

Lemma VerifyWallets_loop_true salvage_wallet wallet_files :
  ∀ seen w r w',
    VerifyWallets_loop E salvage_wallet seen wallet_files w = (Ret r, w') →
    (r = true ↔
     NoDup (map (WalletLocation_GetPath E (gArgs w) (disk w)) wallet_files) ∧
     (∀ l, l ∈ map (WalletLocation_GetPath E (gArgs w) (disk w)) wallet_files
           → l ∉ seen) ∧
     Forall (λ l, verify_success E (disk w) salvage_wallet l = true)
       (map (WalletLocation_GetPath E (gArgs w) (disk w)) wallet_files)).
Proof.
  induction wallet_files as [|f rest IH]; intros seen w r w' Hrun.
  - cbn in Hrun. injection Hrun as <- _. cbn. split; [|done].
    intros _. split; [constructor|]. split; [|constructor].
    by intros l ?%elem_of_nil.
  - cbn [map].
    destruct (decide (WalletLocation_GetPath E (gArgs w) (disk w) f ∈ seen))
      as [Hdup|Hnew].
    + rewrite VerifyWallets_loop_duplicate in Hrun by done.
      injection Hrun as <- _. split; [done|].
      intros (_ & Hseen & _). exfalso.
      apply (Hseen (WalletLocation_GetPath E (gArgs w) (disk w) f));
        [by left|done].
    + rewrite VerifyWallets_loop_turn in Hrun by done.
      destruct (verify_success E (disk w) salvage_wallet
                  (WalletLocation_GetPath E (gArgs w) (disk w) f)) eqn:Hok.
      * apply IH in Hrun. cbn [gArgs disk emits with_args] in Hrun.
        rewrite Hrun. rewrite NoDup_cons, Forall_cons. split.
        -- intros (Hnd & Hseen & Hall). split; [split; [|done]|split].
           ++ intros Hin. apply (Hseen _ Hin).
              apply elem_of_union. left. by apply elem_of_singleton.
           ++ intros l [->|Hl]%elem_of_cons; [done|].
              intros Hs. apply (Hseen l Hl), elem_of_union. by right.
           ++ done.
        -- intros ((Hf & Hnd) & Hseen & _ & Hall). split; [done|].
           split; [|done]. intros l Hl.
           rewrite elem_of_union, elem_of_singleton.
           intros [->|Hin]; [done|]. apply (Hseen l); [by right|done].
      * injection Hrun as <- _. split; [done|].
        intros (_ & _ & Hall). apply Forall_cons in Hall as [Hf _].
        by rewrite Hok in Hf.
Qed.

Lemma VerifyWallets_loop_events salvage_wallet wallet_files :
  ∀ seen w, ∃ r evs,
    VerifyWallets_loop E salvage_wallet seen wallet_files w
    = (Ret r, emits evs w) ∧
    Forall verify_stage_event evs.
Proof.
  induction wallet_files as [|f rest IH]; intros seen w.
  - exists true, []. rewrite emits_nil. by split.
  - destruct (decide (WalletLocation_GetPath E (gArgs w) (disk w) f ∈ seen))
      as [Hdup|Hnew].
    + rewrite VerifyWallets_loop_duplicate by done.
      eexists _, _. split; [done|]. by repeat constructor.
    + rewrite VerifyWallets_loop_turn by done.
      assert (Hev : Forall verify_stage_event
                (verify_events E (disk w) salvage_wallet
                   (WalletLocation_GetPath E (gArgs w) (disk w) f))).
      { unfold verify_events. constructor; [done|].
        apply Forall_app. split; case_decide; by repeat constructor. }
      destruct (verify_success E (disk w) salvage_wallet _).
      * edestruct IH as (r & evs & Hrun & Hevs).
        rewrite Hrun, emits_emits. eexists _, _. split; [done|].
        apply Forall_app. by split.
      * by eexists _, _.
Qed.

End VerifyMore.

(** X6. VerifyWallets returns true exactly when the checks on the wallet
    directory pass, no two of the wallet files are at the same location, and
    the verification of every one of them succeeds. *)
Theorem VerifyWallets_succeeds_iff E w wallet_files :
  ∃ r w',
    VerifyWallets E wallet_files w = (Ret r, w') ∧
    (r = true ↔
     ∃ w1,
       after_walletdir E w = Some w1 ∧
       NoDup (map (WalletLocation_GetPath E (gArgs w1) (disk w1))
                wallet_files) ∧
       Forall (λ l, verify_success E (disk w1)
                      (salvage_flag (gArgs w1) wallet_files) l = true)
         (map (WalletLocation_GetPath E (gArgs w1) (disk w1))
            wallet_files)).
Proof.
  destruct (after_walletdir E w) as [w1|] eqn:Hdir.
  - rewrite (VerifyWallets_passed E wallet_files w w1 Hdir).
    rewrite VerifyWallets_files_loop.
    fold (salvage_flag (gArgs w1) wallet_files).
    destruct (VerifyWallets_loop E (salvage_flag (gArgs w1) wallet_files) ∅
                wallet_files (emits (verify_header E w1) w1))
      as [[r|] w'] eqn:Hrun.
    + exists r, w'. split; [done|].
      apply VerifyWallets_loop_true in Hrun.
      cbn [gArgs disk emits with_args] in Hrun. rewrite Hrun. split.
      * intros (Hnd & _ & Hall). by exists w1.
      * intros (w1' & [= <-] & Hnd & Hall). split; [done|].
        split; [|done]. intros l _. apply not_elem_of_empty.
    + destruct (VerifyWallets_loop_events E
                  (salvage_flag (gArgs w1) wallet_files) wallet_files ∅
                  (emits (verify_header E w1) w1)) as (r & evs & Hrun' & _).
      by rewrite Hrun' in Hrun.
  - destruct (VerifyWallets_rejected E wallet_files w Hdir) as (msg & Hrun).
    rewrite Hrun. eexists _, _. split; [done|]. split; [done|].
    by intros (w1 & ? & _).
Qed.

Lemma after_walletdir_canonical E w w1 :
  Args.IsArgSet (gArgs w) "-walletdir" = true →
  after_walletdir E w = Some w1 →
  ∃ canonical,
    fs_canonical E (disk w) (Args.GetArg (gArgs w) "-walletdir" "")
      = Some canonical ∧
    gArgs w1 !! "-walletdir" = Some [canonical].
Proof.
  intros Hset. unfold after_walletdir. rewrite Hset.
  destruct (fs_canonical E (disk w) _) as [c|]; [|done].
  destruct (_ && _); [|done]. intros [= <-]. exists c.
  split; [done|]. cbn. apply lookup_insert_eq.
Qed.

Lemma after_walletdir_others E w w1 :
  after_walletdir E w = Some w1 →
  vpwallets w1 = vpwallets w ∧ released w1 = released w ∧
  chain_clients w1 = chain_clients w ∧
  (∀ k, k ≠ "-walletdir" → gArgs w1 !! k = gArgs w !! k).
Proof.
  intros [->|(c & _ & ->)]%after_walletdir_world; [done|].
  cbn. split; [done|]. split; [done|]. split; [done|].
  intros k Hk. by rewrite lookup_insert_ne.
Qed.

(** X7. VerifyWallets constructs, registers and releases no wallet: all it
    leaves in the trace are reports and calls of the verification, and the
    registry and the wallet clients are as before.  Of the store it changes
    at most -walletdir, which it binds to the canonical directory when the
    checks pass; when a check fails the store is as it was. *)
Theorem VerifyWallets_leaves_alone E w wallet_files :
  ∃ r w' evs,
    VerifyWallets E wallet_files w = (Ret r, w') ∧
    trace w' = trace w ++ evs ∧
    Forall verify_stage_event evs ∧
    vpwallets w' = vpwallets w ∧
    released w' = released w ∧
    chain_clients w' = chain_clients w ∧
    (∀ k, k ≠ "-walletdir" → gArgs w' !! k = gArgs w !! k) ∧
    (after_walletdir E w = None → gArgs w' = gArgs w) ∧
    (Args.IsArgSet (gArgs w) "-walletdir" = true →
     ∀ w1, after_walletdir E w = Some w1 →
           ∃ canonical,
             fs_canonical E (disk w)
               (Args.GetArg (gArgs w) "-walletdir" "") = Some canonical ∧
             gArgs w' !! "-walletdir" = Some [canonical]).
Proof.
  destruct (after_walletdir E w) as [w1|] eqn:Hdir.
  - rewrite (VerifyWallets_passed E wallet_files w w1 Hdir).
    rewrite VerifyWallets_files_loop.
    edestruct VerifyWallets_loop_events as (r & evs & Hrun & Hevs).
    rewrite Hrun, emits_emits.
    exists r, (emits (verify_header E w1 ++ evs) w1),
      (verify_header E w1 ++ evs).
    destruct (after_walletdir_frame E w w1 Hdir) as (Htr & _ & _).
    destruct (after_walletdir_others E w w1 Hdir) as (Hv & Hrel & Hcl & Hk).
    cbn [trace vpwallets released chain_clients gArgs emits with_args].
    split; [done|]. split; [by rewrite Htr|].
    split; [apply Forall_app; split; [by repeat constructor|done]|].
    split; [done|]. split; [done|]. split; [done|]. split; [done|].
    split; [done|]. intros Hset w1' [= <-].
    by apply after_walletdir_canonical.
  - destruct (VerifyWallets_rejected E wallet_files w Hdir) as (msg & Hrun).
    rewrite Hrun. eexists _, _, _. split; [done|]. split; [done|].
    split; [by repeat constructor|].
    split; [done|]. split; [done|]. split; [done|]. split; [done|].
    split; [done|]. done.
Qed.

(** ** LoadWallets, and the life of the registry *)

Section Lifecycle.

Context (E : Externals).

Lemma LoadWallets_closed_form wallet_files :
  ∀ w,
    LoadWallets E wallet_files w
    = (Ret (all_constructed E (gArgs w) (disk w) wallet_files),
       with_registry
         (registry_add_all (vpwallets w)
            (constructed_handles E (gArgs w) (disk w) wallet_files))
         (load_trace E (gArgs w) (disk w) wallet_files) w).
Proof.
  induction wallet_files as [|f rest IH]; intros w.
  - cbn. by rewrite with_registry_nil.
  - cbn [all_constructed forallb constructed_handles load_trace].
    destruct (CWallet_CreateWalletFromFile E (disk w)
                (WalletLocation_GetPath E (gArgs w) (disk w) f))
      as [h|] eqn:Hc.
    + rewrite (LoadWallets_cons_constructed E f rest h) by done.
      rewrite IH. cbn [gArgs disk vpwallets with_registry].
      rewrite with_registry_with_registry.
      rewrite bool_decide_eq_true_2 by eauto. done.
    + rewrite (LoadWallets_cons_failed E f rest) by done.
      rewrite bool_decide_eq_false_2 by (by intros [? ?]). done.
Qed.



Lemma for_each_emit {A} (ev : A → Event) (l : list A) w :
  for_each l (λ x, emit (ev x)) w = (Ret tt, emits (map ev l) w).
Proof.
  revert w. induction l as [|x l IH]; intros w; cbn [for_each map].
  - by rewrite emits_nil.
  - unfold bind. cbn. rewrite IH. f_equal.
    exact (emits_emits [ev x] _ w).
Qed.

Lemma StartWallets_closed_form w :
  StartWallets w
  = (Ret tt,
     emits (map EvPostInitProcess (vpwallets w) ++
            [EvScheduleEvery "MaybeCompactWalletDB" 500]) w).
Proof.
  unfold StartWallets, bind, GetWallets. rewrite for_each_emit.
  unfold emit. f_equal.
  exact (emits_emits _ [EvScheduleEvery "MaybeCompactWalletDB" 500] w).
Qed.

Lemma FlushWallets_closed_form w :
  FlushWallets w
  = (Ret tt, emits (map (λ h, EvFlush h false) (vpwallets w)) w).
Proof. unfold FlushWallets, bind, GetWallets. apply for_each_emit. Qed.

Lemma StopWallets_closed_form w :
  StopWallets w
  = (Ret tt, emits (map (λ h, EvFlush h true) (vpwallets w)) w).
Proof. unfold StopWallets, bind, GetWallets. apply for_each_emit. Qed.

Lemma UnloadWallets_closed_form w :
  UnloadWallets w
  = (Ret tt,
     with_wallets [] (released w ++ rev (vpwallets w))
       (unload_events (rev (vpwallets w))) w).
Proof.
  unfold UnloadWallets, bind, GetWallets. rewrite UnloadWallets_loop.
  rewrite erase_all_Permutation; [done|]. apply Permutation_rev.
Qed.

End Lifecycle.





(** X9. The life of the wallets, from loading to unloading, in the order
    the node runs the five calls.  Whatever LoadWallets got registered, and
    only that, is started (each wallet's post-init, then the one scheduling
    of the compaction task every 500), flushed softly, flushed for shutdown,
    and then removed and released from the back of the registry; the
    registry ends empty and every registered handle ends released. *)
Theorem wallets_lifecycle E w wallet_files :
  ∃ w' registry,
    (let! loaded := LoadWallets E wallet_files in
     StartWallets then! FlushWallets then! StopWallets then!
     UnloadWallets then! ret loaded) w
    = (Ret (all_constructed E (gArgs w) (disk w) wallet_files), w') ∧
    registry = registry_add_all (vpwallets w)
                 (constructed_handles E (gArgs w) (disk w) wallet_files) ∧
    trace w' = trace w ++
               load_trace E (gArgs w) (disk w) wallet_files ++
               running_events registry ++
               unload_events (rev registry) ∧
    vpwallets w' = [] ∧
    released w' = released w ++ rev registry.
Proof.
  eexists _, _. split; [|split; [reflexivity|]].
  - unfold bind at 1. rewrite LoadWallets_closed_form.
    unfold bind at 1. rewrite StartWallets_closed_form.
    unfold bind at 1. rewrite FlushWallets_closed_form.
    unfold bind at 1. rewrite StopWallets_closed_form.
    unfold bind at 1. rewrite UnloadWallets_closed_form.
    unfold ret. reflexivity.
  - cbn [trace vpwallets released with_wallets emits with_args
         with_registry gArgs disk].
    split; [|done]. unfold running_events.
    by rewrite <- !app_assoc.
Qed.

(** X10. Once UnloadWallets has run, flushing, stopping and unloading
    again do nothing at all, while StartWallets, finding no wallet, still
    schedules the compaction task. *)
Theorem after_unload_nothing_left w :
  ∃ w1,
    UnloadWallets w = (Ret tt, w1) ∧
    FlushWallets w1 = (Ret tt, w1) ∧
    StopWallets w1 = (Ret tt, w1) ∧
    UnloadWallets w1 = (Ret tt, w1) ∧
    StartWallets w1
    = (Ret tt, emits [EvScheduleEvery "MaybeCompactWalletDB" 500] w1).
Proof.
  eexists. split; [apply UnloadWallets_closed_form|].
  set (w1 := with_wallets _ _ _ w).
  rewrite FlushWallets_closed_form, StopWallets_closed_form,
    UnloadWallets_closed_form, StartWallets_closed_form.
  cbn [vpwallets w1 with_wallets map rev app unload_events flat_map].
  rewrite emits_nil. split; [done|]. split; [done|]. split; [|done].
  unfold with_wallets. cbn. by rewrite !app_nil_r.
Qed.

(** ** Construct: when it throws, and what it creates *)

(** X11. A copy of the legacy wallet that throws is fatal to Construct:
    when wallets are enabled, the copy is due and the copy throws (for an
    error of its own, because the legacy wallet is not a regular file, or
    because the destination exists by then), Construct throws.  Whenever
    Construct throws, the lines after the copy have not run: no wallet
    client is created and the store is as it was.  When it returns, it has
    created exactly one wallet client if wallets are enabled, and none,
    leaving store and disk alone, if they are disabled. *)
Theorem Construct_outcome E w :
  ∃ o w',
    Construct E w = (o, w') ∧
    (Args.GetBoolArg (gArgs w) "-disablewallet" (DEFAULT_DISABLE_WALLET E)
       = false →
     legacy_copy_due E w = true →
     copy_file_error E (disk_at_copy E w)
       (legacy_wallet E w) (default_wallet_2 E w) = true
     ∨ Fs.copy_file_fail_if_exists (disk_at_copy E w)
         (legacy_wallet E w) (default_wallet_2 E w) = None →
     o = Throw) ∧
    (o = Throw →
     gArgs w' = gArgs w ∧ chain_clients w' = chain_clients w) ∧
    (o = Ret tt →
     chain_clients w'
     = chain_clients w ++
       (if Args.GetBoolArg (gArgs w) "-disablewallet"
             (DEFAULT_DISABLE_WALLET E)
        then [] else [client_wallets (gArgs w)])) ∧
    (Args.GetBoolArg (gArgs w) "-disablewallet" (DEFAULT_DISABLE_WALLET E)
       = true →
     o = Ret tt ∧ gArgs w' = gArgs w ∧ disk w' = disk w).
Proof.
  destruct (Args.GetBoolArg (gArgs w) "-disablewallet"
              (DEFAULT_DISABLE_WALLET E)) eqn:Hd.
  - rewrite (Construct_disabled E w Hd). eexists _, _. split; [done|].
    cbn. split; [done|]. split; [done|].
    split; [by rewrite app_nil_r|]. done.
  - rewrite (Construct_enabled E w Hd), Construct_legacy_wallet_closed_form.
    destruct (legacy_copy_due E w) eqn:Hdue.
    + destruct (legacy_copy_result E w) as [d'|] eqn:Hcopy.
      * eexists _, _. split; [done|]. cbn. split; [|done].
        intros _ _ Hthrows. unfold legacy_copy_result in Hcopy.
        destruct Hthrows as [Herr|Hnone].
        -- by rewrite Herr in Hcopy.
        -- rewrite Hnone in Hcopy. by destruct (copy_file_error E _ _ _).
      * eexists _, _. split; [done|]. cbn. by repeat split.
    + eexists _, _. split; [done|]. cbn. split; [done|]. done.
Qed.

(** ** ParameterInteraction, Construct and the salvage flag of VerifyWallets *)

Lemma Construct_returned E w w' :
  Args.GetBoolArg (gArgs w) "-disablewallet" (DEFAULT_DISABLE_WALLET E)
    = false →
  Construct E w = (Ret tt, w') →
  chain_clients w' = chain_clients w ++ [client_wallets (gArgs w)] ∧
  gArgs w' = soft (gArgs w) "-wallet" "".
Proof.
  intros Hd. rewrite (Construct_enabled E w Hd).
  rewrite Construct_legacy_wallet_closed_form.
  destruct (legacy_copy_due E w).
  - destruct (legacy_copy_result E w); [|done].
    by intros [= <-].
  - by intros [= <-].
Qed.

Lemma client_wallets_length (a : gmap string (list string)) :
  is_multiwallet_of a = false → (length (client_wallets a) ≤ 1)%nat.
Proof.
  unfold is_multiwallet_of, client_wallets.
  intros Hm%bool_decide_eq_false.
  destruct (Args.IsArgSet a "-wallet"); [lia|]. cbn. lia.
Qed.

(** X12. The comment in VerifyWallets (lines 157-159) holds: when
    ParameterInteraction has returned true with wallets enabled and
    Construct has then handed the wallet files to the wallet client, the
    size check in the salvage flag has no effect on that list; the flag
    VerifyWallets computes for it is just -salvagewallet. *)
Theorem salvage_size_check_has_no_effect E w w1 w2 wallet_files :
  Args.GetBoolArg (gArgs w) "-disablewallet" (DEFAULT_DISABLE_WALLET E)
    = false →
  ParameterInteraction E w = (Ret true, w1) →
  Construct E w1 = (Ret tt, w2) →
  chain_clients w2 = chain_clients w1 ++ [wallet_files] →
  salvage_flag (gArgs w2) wallet_files
  = Args.GetBoolArg (gArgs w2) "-salvagewallet" false.
Proof.
  intros Hd Hpi Hc Hfiles.
  destruct (ParameterInteraction_closed_form E w Hd) as (evs & Hrun & _).
  rewrite Hpi in Hrun. injection Hrun as Hr Hw1.
  symmetry in Hr. apply bool_decide_eq_true in Hr.
  rewrite interaction_errors_first_failing_rule in Hr.
  apply first_failing_rule_nil in Hr as (Hmulti & _).
  assert (Ha1 : gArgs w1 = interaction_store E (gArgs w)) by by rewrite Hw1.
  assert (Hd1 : Args.GetBoolArg (gArgs w1) "-disablewallet"
                  (DEFAULT_DISABLE_WALLET E) = false).
  { rewrite Ha1, interaction_store_reads; [done|]. not_a_soft_key. }
  destruct (Construct_returned E w1 w2 Hd1 Hc) as (Hclients & Ha2).
  rewrite Hclients in Hfiles. apply app_inv_head in Hfiles.
  injection Hfiles as <-.
  assert (Hs : Args.GetBoolArg (gArgs w2) "-salvagewallet" false
               = Args.GetBoolArg (gArgs w) "-salvagewallet" false).
  { rewrite Ha2, (GetBoolArg_lookup (gArgs w1)) by (by soft_lookups).
    rewrite Ha1. apply interaction_store_reads. not_a_soft_key. }
  unfold salvage_flag. rewrite Hs.
  destruct (Args.GetBoolArg (gArgs w) "-salvagewallet" false) eqn:Hsalv;
    [|done].
  rewrite bool_decide_eq_true_2; [done|].
  apply client_wallets_length.
  rewrite Ha1, interaction_store_multiwallet.
  destruct (is_multiwallet_of (gArgs w)); [|done].
  by destruct (Hmulti eq_refl) as (? & _).
Qed.

Lemma salvage_size_check_has_no_effect_witness :
  salvage_flag
    (gArgs (Construct node_externals
              (ParameterInteraction node_externals
                 (world_of [("-salvagewallet", ["1"])]
                    [("/data/peers.dat", Fs.RegularFile "")] [])).2).2)
    [""]
  = true.
Proof.
  rewrite (salvage_size_check_has_no_effect node_externals
             (world_of [("-salvagewallet", ["1"])]
                [("/data/peers.dat", Fs.RegularFile "")] [])
             (ParameterInteraction node_externals
                (world_of [("-salvagewallet", ["1"])]
                   [("/data/peers.dat", Fs.RegularFile "")] [])).2
             (Construct node_externals
                (ParameterInteraction node_externals
                   (world_of [("-salvagewallet", ["1"])]
                      [("/data/peers.dat", Fs.RegularFile "")] [])).2).2
             [""]).
  - vm_compute. reflexivity.
  - vm_compute. reflexivity.
  - vm_compute. reflexivity.
  - vm_compute. reflexivity.
  - vm_compute. reflexivity.
Defined.
